(** * Multi-writer BLF benchmark: a shallow embedding and its properties

    The development embeds [MultiWriterBenchmark.cpp] (command-line parsing,
    the writer task, the orchestrating [main] and the summary) and proves
    properties of it.

    Conventions.
    - Machine integers are [Z] values with the conversions written out.
      The data model is LP64: [std::size_t], [unsigned long],
      [unsigned long long] and [uint64_t] are 64-bit unsigned,
      [std::streamsize] and [long long] are 64-bit signed.
    - A C++ function that may throw or call [std::exit] returns a [Result].
    - The external log writer library and the operating system are a
      [World]: an oracle that says how each call answers.  The calls a
      task makes to the library are recorded in a trace.
    - Floating-point figures of the report are left out; a measured
      duration is kept as the tick count of the steady clock. *)

From Stdlib Require Import ZArith Ascii String List Lia.
From stdpp Require Import base list strings pretty.

Local Open Scope Z_scope.

(** ** Machine integers *)

Module Int.

Definition ULLONG_MAX : Z := 2 ^ 64 - 1.
Definition LLONG_MAX : Z := 2 ^ 63 - 1.
Definition LLONG_MIN : Z := - 2 ^ 63.

(** [static_cast] to an unsigned type of [w] bits. *)
Definition to_unsigned (w : Z) (x : Z) : Z := x mod 2 ^ w.

(** [static_cast] to a signed type of [w] bits (two's complement). *)
Definition to_signed (w : Z) (x : Z) : Z :=
  (x + 2 ^ (w - 1)) mod 2 ^ w - 2 ^ (w - 1).

Definition to_size_t : Z -> Z := to_unsigned 64.
Definition to_uint64 : Z -> Z := to_unsigned 64.
Definition to_uint32 : Z -> Z := to_unsigned 32.
Definition to_uint16 : Z -> Z := to_unsigned 16.
Definition to_uint8 : Z -> Z := to_unsigned 8.
Definition to_streamsize : Z -> Z := to_signed 64.

Definition is_uint32 (x : Z) : Prop := 0 <= x < 2 ^ 32.

End Int.

(** ** Results of fallible code *)

Inductive Result (A : Type) : Type :=
| Returned (a : A)
| Thrown (what : string)
| Exited (status : Z) (output : string).

Arguments Returned {A} a.
Arguments Thrown {A} what.
Arguments Exited {A} status output.

Definition bind {A B : Type} (r : Result A) (k : A -> Result B) : Result B :=
  match r with
  | Returned a => k a
  | Thrown what => Thrown what
  | Exited status output => Exited status output
  end.

Definition EXIT_SUCCESS : Z := 0.
Definition EXIT_FAILURE : Z := 1.

(** ** The C library's integer scanners

    [strtoull], [strtoul] and [strtoll] with base 10, after ISO C 7.22.1.4:
    leading white space is skipped, one sign is optional, then the longest
    run of decimal digits is converted.  Each returns the value and the
    text [end] points to.  Without a digit nothing is converted: the value
    is 0 and [end] is the whole text. *)

Module CStdlib.

Definition isspace (c : ascii) : bool :=
  let n := Z.of_nat (nat_of_ascii c) in
  (n =? 32) || ((9 <=? n) && (n <=? 13)).

Definition digitValue (c : ascii) : option Z :=
  let n := Z.of_nat (nat_of_ascii c) in
  if (48 <=? n) && (n <=? 57) then Some (n - 48) else None.

Fixpoint skipSpace (s : string) : string :=
  match s with
  | String c rest => if isspace c then skipSpace rest else s
  | EmptyString => s
  end.

Fixpoint scanDigits (acc : Z) (s : string) : Z * string :=
  match s with
  | String c rest =>
      match digitValue c with
      | Some d => scanDigits (10 * acc + d) rest
      | None => (acc, s)
      end
  | EmptyString => (acc, s)
  end.

Definition scanSign (s : string) : bool * string :=
  match s with
  | String "-"%char rest => (true, rest)
  | String "+"%char rest => (false, rest)
  | _ => (false, s)
  end.

(** The subject sequence: sign, magnitude and the text after it, or
    [None] when there is no digit to convert. *)
Definition scanInteger (text : string) : option (bool * Z * string) :=
  let '(negative, digits) := scanSign (skipSpace text) in
  match digits with
  | String c _ =>
      match digitValue c with
      | Some _ =>
          let '(magnitude, rest) := scanDigits 0 digits in
          Some (negative, magnitude, rest)
      | None => None
      end
  | EmptyString => None
  end.

(** A magnitude out of range gives [ULLONG_MAX]; a minus sign negates
    the value in the unsigned type. *)
Definition strtoull (text : string) : Z * string :=
  match scanInteger text with
  | None => (0, text)
  | Some (negative, magnitude, rest) =>
      if Int.ULLONG_MAX <? magnitude then (Int.ULLONG_MAX, rest)
      else (Int.to_unsigned 64 (if negative then - magnitude else magnitude), rest)
  end.

(** [unsigned long] is [unsigned long long] in the LP64 model. *)
Definition strtoul (text : string) : Z * string := strtoull text.

(** A value out of range saturates at [LLONG_MIN] or [LLONG_MAX]. *)
Definition strtoll (text : string) : Z * string :=
  match scanInteger text with
  | None => (0, text)
  | Some (negative, magnitude, rest) =>
      let value := if negative then - magnitude else magnitude in
      if value <? Int.LLONG_MIN then (Int.LLONG_MIN, rest)
      else if Int.LLONG_MAX <? value then (Int.LLONG_MAX, rest)
      else (value, rest)
  end.

End CStdlib.

(** ** Command-line options *)

Record CommandLineOptions := {
  fileCount : Z;
  messagesPerFile : Z;
  queueSize : Z;
  uncompressedBufferSize : Z;
  logContainerSize : Z;
  compressionThreads : Z;
  outputDirectory : string
}.

Definition set_fileCount (v : Z) (o : CommandLineOptions) : CommandLineOptions :=
  {| fileCount := v; messagesPerFile := messagesPerFile o;
     queueSize := queueSize o; uncompressedBufferSize := uncompressedBufferSize o;
     logContainerSize := logContainerSize o;
     compressionThreads := compressionThreads o;
     outputDirectory := outputDirectory o |}.

Definition set_messagesPerFile (v : Z) (o : CommandLineOptions) : CommandLineOptions :=
  {| fileCount := fileCount o; messagesPerFile := v;
     queueSize := queueSize o; uncompressedBufferSize := uncompressedBufferSize o;
     logContainerSize := logContainerSize o;
     compressionThreads := compressionThreads o;
     outputDirectory := outputDirectory o |}.

Definition set_queueSize (v : Z) (o : CommandLineOptions) : CommandLineOptions :=
  {| fileCount := fileCount o; messagesPerFile := messagesPerFile o;
     queueSize := v; uncompressedBufferSize := uncompressedBufferSize o;
     logContainerSize := logContainerSize o;
     compressionThreads := compressionThreads o;
     outputDirectory := outputDirectory o |}.

Definition set_uncompressedBufferSize (v : Z) (o : CommandLineOptions) : CommandLineOptions :=
  {| fileCount := fileCount o; messagesPerFile := messagesPerFile o;
     queueSize := queueSize o; uncompressedBufferSize := v;
     logContainerSize := logContainerSize o;
     compressionThreads := compressionThreads o;
     outputDirectory := outputDirectory o |}.

Definition set_logContainerSize (v : Z) (o : CommandLineOptions) : CommandLineOptions :=
  {| fileCount := fileCount o; messagesPerFile := messagesPerFile o;
     queueSize := queueSize o; uncompressedBufferSize := uncompressedBufferSize o;
     logContainerSize := v;
     compressionThreads := compressionThreads o;
     outputDirectory := outputDirectory o |}.

Definition set_compressionThreads (v : Z) (o : CommandLineOptions) : CommandLineOptions :=
  {| fileCount := fileCount o; messagesPerFile := messagesPerFile o;
     queueSize := queueSize o; uncompressedBufferSize := uncompressedBufferSize o;
     logContainerSize := logContainerSize o;
     compressionThreads := v;
     outputDirectory := outputDirectory o |}.

Definition set_outputDirectory (v : string) (o : CommandLineOptions) : CommandLineOptions :=
  {| fileCount := fileCount o; messagesPerFile := messagesPerFile o;
     queueSize := queueSize o; uncompressedBufferSize := uncompressedBufferSize o;
     logContainerSize := logContainerSize o;
     compressionThreads := compressionThreads o;
     outputDirectory := v |}.

(** ** Parsing of numeric arguments *)

(** [requireValue] ([++index; return argv[index]]) hands the argument
    after the flag, and the arguments that remain after it, to the rest of
    the loop body [k]. *)
Definition requireValue {A : Type} (rest : list string)
    (k : string -> list string -> Result A) : Result A :=
  match rest with
  | [] => Thrown "missing value for argument"
  | text :: rest' => k text rest'
  end.

(** [end] is never null; [*end != 0] says that text is left over. *)
Definition parseSizeT (text : string) : Result Z :=
  let '(value, rest) := CStdlib.strtoull text in
  if negb (String.eqb rest "") then Thrown "unable to parse numeric argument"
  else Returned (Int.to_size_t value).

Definition parseUint32 (text : string) : Result Z :=
  let '(value, rest) := CStdlib.strtoul text in
  if negb (String.eqb rest "") then Thrown "unable to parse numeric argument"
  else if 4294967295 <? value then Thrown "numeric argument exceeds uint32_t range"
  else Returned (Int.to_uint32 value).

Definition parseStreamSize (text : string) : Result Z :=
  let '(value, rest) := CStdlib.strtoll text in
  if negb (String.eqb rest "") then Thrown "unable to parse numeric argument"
  else if value <=? 0 then Thrown "buffer sizes must be positive"
  else Returned (Int.to_streamsize value).

(** ** parseCommandLine *)

(** Defaults the program reads from a throwaway [Vector::BLF::File]:
    [defaultLogContainerSize()] and [compressionThreadCount()], both
    [uint32_t].  The library is not part of the program, so they are
    parameters. *)
Record LibraryDefaults := {
  defaultLogContainerSize : Z;
  compressionThreadCount : Z
}.

Definition usage (argv0 : string) : string :=
  "Usage: " +:+ argv0 +:+ " [options]
  --files <count>              Number of BLF files to write in parallel (default: 10)
  --messages <count>           Number of CAN frames per file (default: 200000)
  --queue-size <count>         Object queue capacity per file (default: 10000)
  --uncompressed-bytes <size>  In-memory staging size in bytes (default: logContainerSize * 16)
  --log-container-bytes <size> Log container size for new files (default: library default)
  --compression-threads <n>    Background compression workers per file (default: hardware concurrency)
  --output-dir <path>          Directory used for generated BLF files
".

Definition initialOptions (defaults : LibraryDefaults) : CommandLineOptions :=
  let logContainerSize := defaultLogContainerSize defaults in
  {| fileCount := 10;
     messagesPerFile := 200000;
     queueSize := 10000;
     uncompressedBufferSize :=
       Int.to_streamsize (Int.to_streamsize logContainerSize * 16);
     logContainerSize := logContainerSize;
     compressionThreads := compressionThreadCount defaults;
     outputDirectory := "blf_multi_writer_logs" |}.

(** The [for] loop over [argv[1..argc-1]]: [args] are the arguments from
    [argv[i]] on. *)
Fixpoint parseArguments (argv0 : string) (options : CommandLineOptions)
    (args : list string) {struct args} : Result CommandLineOptions :=
  match args with
  | [] => Returned options
  | argument :: rest =>
      if String.eqb argument "-h" || String.eqb argument "--help" then
        Exited EXIT_SUCCESS (usage argv0)
      else if String.eqb argument "--files" then
        requireValue rest (fun text rest' =>
          bind (parseSizeT text) (fun value =>
            if value =? 0 then Thrown "--files requires a positive value"
            else parseArguments argv0 (set_fileCount value options) rest'))
      else if String.eqb argument "--messages" then
        requireValue rest (fun text rest' =>
          bind (parseSizeT text) (fun value =>
            if value =? 0 then Thrown "--messages requires a positive value"
            else parseArguments argv0 (set_messagesPerFile value options) rest'))
      else if String.eqb argument "--queue-size" then
        requireValue rest (fun text rest' =>
          bind (parseUint32 text) (fun value =>
            if value =? 0 then Thrown "--queue-size requires a positive value"
            else parseArguments argv0 (set_queueSize value options) rest'))
      else if String.eqb argument "--uncompressed-bytes" then
        requireValue rest (fun text rest' =>
          bind (parseStreamSize text) (fun value =>
            parseArguments argv0 (set_uncompressedBufferSize value options) rest'))
      else if String.eqb argument "--log-container-bytes" then
        requireValue rest (fun text rest' =>
          bind (parseUint32 text) (fun value =>
            parseArguments argv0 (set_logContainerSize value options) rest'))
      else if String.eqb argument "--compression-threads" then
        requireValue rest (fun text rest' =>
          bind (parseUint32 text) (fun value =>
            if value =? 0 then Thrown "--compression-threads requires a positive value"
            else parseArguments argv0 (set_compressionThreads value options) rest'))
      else if String.eqb argument "--output-dir" then
        requireValue rest (fun text rest' =>
          parseArguments argv0 (set_outputDirectory text options) rest')
      else
        Thrown ("Unknown argument '" +:+ argument +:+ "'. Pass --help for usage.")
  end.

(** The clamp after the loop. *)
Definition clampBuffer (options : CommandLineOptions) : CommandLineOptions :=
  if uncompressedBufferSize options <? Int.to_streamsize (logContainerSize options)
  then set_uncompressedBufferSize (Int.to_streamsize (logContainerSize options)) options
  else options.

(** [argv] is the whole vector; [argv[0]] is the program name and the loop
    starts at [argv[1]]. *)
Definition parseCommandLine (defaults : LibraryDefaults) (argv : list string)
    : Result CommandLineOptions :=
  let argv0 := hd "" argv in
  bind (parseArguments argv0 (initialOptions defaults) (tl argv))
       (fun options => Returned (clampBuffer options)).

(** ** CAN frames and the writer's configuration *)

Module CanMessage.

(** The fields of [Vector::BLF::CanMessage] the program sets; [data] is
    the 8-byte payload array. *)
Record t := {
  channel : Z;
  dlc : Z;
  id : Z;
  objectTimeStamp : Z;
  flags : Z;
  data : list Z
}.

(** [new CanMessage()]: every field zero. *)
Definition fresh : t :=
  {| channel := 0; dlc := 0; id := 0; objectTimeStamp := 0; flags := 0;
     data := replicate 8 0 |}.

End CanMessage.

Record WriterResult := {
  messagesWritten : Z;
  secondsTaken : Z
}.

(** A value-initialised [WriterResult], as [std::vector<WriterResult>(n)]
    makes them. *)
Definition zeroResult : WriterResult :=
  {| messagesWritten := 0; secondsTaken := 0 |}.

(** [std::exception_ptr]: null, or the captured exception (its message). *)
Abbreviation exception_ptr := (option string).

Record WriterConfig := {
  index : Z;
  wMessagesPerFile : Z;
  wQueueSize : Z;
  wUncompressedBufferSize : Z;
  wLogContainerSize : Z;
  wCompressionThreads : Z;
  wOutputDirectory : string
}.

(** ** The external writer library *)

Inductive LibraryCall :=
| SetDefaultLogContainerSize (size : Z)
| SetWriteBufferSizes (queue : Z) (bytes : Z)
| SetCompressionThreadCount (count : Z)
| Open (path : string)
| IsOpen
| Write (message : CanMessage.t)
| Close.

Inductive OpenOutcome :=
| OpenSucceeds
| OpenFails
| OpenThrows (what : string).

(** How one writer instance answers: [onOpen] for [open] followed by
    [is_open], [onWrite i] for the write of frame [i] ([Some what]: the
    call throws), [onClose] for [close], and the two readings of the
    steady clock. *)
Record WriterBehaviour := {
  onOpen : string -> OpenOutcome;
  onWrite : Z -> CanMessage.t -> option string;
  onClose : option string;
  clockStart : Z;
  clockEnd : Z
}.

(** ** runWriter *)

(** What a [try] block comes to: its value, or the exception leaving it. *)
Inductive Attempt (A : Type) : Type :=
| Done (a : A)
| Raised (what : string).

Arguments Done {A} a.
Arguments Raised {A} what.

Definition payloadCount : nat := 8.

(** The inner loop over [byteIndex], [count] bytes still to set. *)
Fixpoint fillPayload (i : Z) (byteIndex : nat) (count : nat) (data : list Z)
    : list Z :=
  match count with
  | O => data
  | S count' =>
      fillPayload i (S byteIndex) count'
        (<[byteIndex := Int.to_uint8
             (Z.land (Int.to_size_t (i + Z.of_nat byteIndex)) 255)]> data)
  end.

(** The frame built in iteration [i] of the task with index [index]. *)
Definition makeMessage (index : Z) (i : Z) : CanMessage.t :=
  let message := CanMessage.fresh in
  {| CanMessage.channel := Int.to_uint16 (index mod 65535 + 1);
     CanMessage.dlc := Int.to_uint8 (Z.of_nat payloadCount);
     CanMessage.id := Int.to_uint32 (256 + i mod 1792);
     CanMessage.objectTimeStamp := Int.to_uint64 i;
     CanMessage.flags := 0;
     CanMessage.data := fillPayload i 0 payloadCount (CanMessage.data message) |}.

(** The loop [for (i = ...; i < messagesPerFile; ++i)] with [count]
    iterations left ([i + count = messagesPerFile], so [++i] never wraps).
    It stops at the first write that throws. *)
Fixpoint writeMessages (b : WriterBehaviour) (index : Z) (count : nat) (i : Z)
    : list LibraryCall * exception_ptr :=
  match count with
  | O => ([], None)
  | S count' =>
      let message := makeMessage index i in
      match onWrite b i message with
      | Some what => ([Write message], Some what)
      | None =>
          let '(calls, thrown) := writeMessages b index count' (i + 1) in
          (Write message :: calls, thrown)
      end
  end.

Definition fileName (config : WriterConfig) : string :=
  wOutputDirectory config +:+ "/can_channel_"
    +:+ pretty (Int.to_size_t (index config + 1)) +:+ ".blf".

(** The [try] block: the library calls it makes, and either the value it
    stores in [result] at its end or the exception that leaves it. *)
Definition writerBody (b : WriterBehaviour) (config : WriterConfig)
    : list LibraryCall * Attempt WriterResult :=
  let setup :=
    [SetDefaultLogContainerSize (wLogContainerSize config);
     SetWriteBufferSizes (wQueueSize config) (wUncompressedBufferSize config);
     SetCompressionThreadCount (wCompressionThreads config)] in
  match onOpen b (fileName config) with
  | OpenThrows what => (setup ++ [Open (fileName config)], Raised what)
  | OpenFails =>
      (setup ++ [Open (fileName config); IsOpen],
       Raised ("unable to open output file '" +:+ fileName config +:+ "'"))
  | OpenSucceeds =>
      let '(writes, thrown) :=
        writeMessages b (index config) (Z.to_nat (wMessagesPerFile config)) 0 in
      match thrown with
      | Some what =>
          (setup ++ [Open (fileName config); IsOpen] ++ writes, Raised what)
      | None =>
          match onClose b with
          | Some what =>
              (setup ++ [Open (fileName config); IsOpen] ++ writes ++ [Close],
               Raised what)
          | None =>
              (setup ++ [Open (fileName config); IsOpen] ++ writes ++ [Close],
               Done {| messagesWritten := wMessagesPerFile config;
                           secondsTaken := clockEnd b - clockStart b |})
          end
      end
  end.

(** [runWriter config result error]: [result] and [error] are references
    to the task's two slots; the function returns the library calls made
    and the contents of the two slots when it ends. *)
Definition runWriter (b : WriterBehaviour) (config : WriterConfig)
    (result : WriterResult) (error : exception_ptr)
    : list LibraryCall * WriterResult * exception_ptr :=
  match writerBody b config with
  | (calls, Done written) => (calls, written, error)
  | (calls, Raised what) => (calls, result, Some what)
  end.

(** The frames a call trace hands to [write], in order. *)
Definition framesWritten (calls : list LibraryCall) : list CanMessage.t :=
  omap (fun c => match c with Write m => Some m | _ => None end) calls.

(** The paths a call trace opens, in order. *)
Definition pathsOpened (calls : list LibraryCall) : list string :=
  omap (fun c => match c with Open p => Some p | _ => None end) calls.

(** ** The orchestrator *)

Inductive MkdirOutcome :=
| MkdirCreated
| MkdirExists
| MkdirFailed.

(** The environment of one run: the library's defaults, the answer of
    [mkdir], the behaviour of the writer instance of each task, and the
    two clock readings of [main]. *)
Record World := {
  libraryDefaults : LibraryDefaults;
  mkdir : string -> MkdirOutcome;
  writer : Z -> WriterBehaviour;
  overallStart : Z;
  overallEnd : Z
}.

Definition ensureDirectoryExists (w : World) (path : string) : bool :=
  match mkdir w path with
  | MkdirCreated => true
  | MkdirExists => true
  | MkdirFailed => false
  end.

(** The integer figures [printSummary] prints, and the results behind its
    per-writer lines. *)
Record Report := {
  filesWritten : Z;
  framesPerFile : Z;
  objectQueueSize : Z;
  uncompressedBuffer : Z;
  logContainer : Z;
  compressionThreadsUsed : Z;
  totalFrames : Z;
  wallClock : Z;
  writerLines : list WriterResult
}.

Definition printSummary (options : CommandLineOptions)
    (results : list WriterResult) (totalSeconds : Z) : Report :=
  let totalMessages := Int.to_size_t (messagesPerFile options * fileCount options) in
  {| filesWritten := fileCount options;
     framesPerFile := messagesPerFile options;
     objectQueueSize := queueSize options;
     uncompressedBuffer := uncompressedBufferSize options;
     logContainer := logContainerSize options;
     compressionThreadsUsed := compressionThreads options;
     totalFrames := totalMessages;
     wallClock := totalSeconds;
     writerLines := results |}.

(** The [WriterConfig] that [main] builds for the task with index [index]. *)
Definition makeConfig (options : CommandLineOptions) (index : Z) : WriterConfig :=
  {| index := index;
     wMessagesPerFile := messagesPerFile options;
     wQueueSize := queueSize options;
     wUncompressedBufferSize := uncompressedBufferSize options;
     wLogContainerSize := logContainerSize options;
     wCompressionThreads := compressionThreads options;
     wOutputDirectory := outputDirectory options |}.

(** The memory the threads share: the two slot vectors; [calls] records,
    per task, the library calls the task has made. *)
Record Slots := {
  results : list WriterResult;
  errors : list exception_ptr;
  calls : list (list LibraryCall)
}.

Definition initialSlots (n : nat) : Slots :=
  {| results := replicate n zeroResult;
     errors := replicate n None;
     calls := replicate n [] |}.

(** The thread of task [k] runs [runWriter] on references to
    [results[k]] and [errors[k]]. *)
Definition runThread (w : World) (options : CommandLineOptions) (s : Slots)
    (k : nat) : Slots :=
  match results s !! k, errors s !! k with
  | Some result, Some error =>
      let '(made, result', error') :=
        runWriter (writer w (Z.of_nat k)) (makeConfig options (Z.of_nat k))
                  result error in
      {| results := <[k := result']> (results s);
         errors := <[k := error']> (errors s);
         calls := <[k := made]> (calls s) |}
  | _, _ => s
  end.

(** The threads run concurrently.  Each one touches only its own slots,
    so a run is described by the order in which the threads complete:
    [schedule], a permutation of the task indices. *)
Definition runThreads (w : World) (options : CommandLineOptions)
    (schedule : list nat) (s : Slots) : Slots :=
  foldl (runThread w options) s schedule.

(** The scan after the joins: the first non-null [errors[index]]. *)
Fixpoint firstError (errors : list exception_ptr) : exception_ptr :=
  match errors with
  | [] => None
  | Some what :: _ => Some what
  | None :: rest => firstError rest
  end.

Inductive Event :=
| Stdout (text : string)
| Stderr (text : string)
| Mkdir (path : string)
| Launch (config : WriterConfig)
| Join (index : nat)
| Summary (report : Report).

(** The launch and join events of the two loops over the task indices. *)
Definition launchesOf (options : CommandLineOptions) : list Event :=
  (fun k => Launch (makeConfig options (Z.of_nat k)))
    <$> seq 0 (Z.to_nat (fileCount options)).

Definition joinsOf (options : CommandLineOptions) : list Event :=
  Join <$> seq 0 (Z.to_nat (fileCount options)).

Record Outcome := {
  events : list Event;
  exitStatus : Z;
  finalSlots : Slots
}.

Definition main (w : World) (schedule : list nat) (argv : list string) : Outcome :=
  match parseCommandLine (libraryDefaults w) argv with
  | Exited status output =>
      {| events := [Stdout output]; exitStatus := status;
         finalSlots := initialSlots 0 |}
  | Thrown what =>
      {| events := [Stderr ("Error: " +:+ what)]; exitStatus := EXIT_FAILURE;
         finalSlots := initialSlots 0 |}
  | Returned options =>
      if negb (ensureDirectoryExists w (outputDirectory options)) then
        {| events :=
             [Mkdir (outputDirectory options);
              Stderr ("Failed to create output directory '"
                        +:+ outputDirectory options +:+ "'")];
           exitStatus := EXIT_FAILURE;
           finalSlots := initialSlots 0 |}
      else
        let n := Z.to_nat (fileCount options) in
        let launches := launchesOf options in
        let slots := runThreads w options schedule (initialSlots n) in
        let joins := joinsOf options in
        match firstError (errors slots) with
        | Some what =>
            {| events :=
                 [Mkdir (outputDirectory options)] ++ launches ++ joins
                   ++ [Stderr ("Error: " +:+ what)];
               exitStatus := EXIT_FAILURE;
               finalSlots := slots |}
        | None =>
            {| events :=
                 [Mkdir (outputDirectory options)] ++ launches ++ joins
                   ++ [Summary (printSummary options (results slots)
                                  (overallEnd w - overallStart w))];
               exitStatus := EXIT_SUCCESS;
               finalSlots := slots |}
        end
  end.

(** ** Relations used to reason about the parser *)

(** [Accepts argument text o o1]: the loop body, at a flag [argument]
    followed by the value [text], succeeds and turns [o] into [o1]. *)
Inductive Accepts : string -> string -> CommandLineOptions -> CommandLineOptions -> Prop :=
| AcceptsFiles text value o :
    parseSizeT text = Returned value -> value <> 0 ->
    Accepts "--files" text o (set_fileCount value o)
| AcceptsMessages text value o :
    parseSizeT text = Returned value -> value <> 0 ->
    Accepts "--messages" text o (set_messagesPerFile value o)
| AcceptsQueueSize text value o :
    parseUint32 text = Returned value -> value <> 0 ->
    Accepts "--queue-size" text o (set_queueSize value o)
| AcceptsUncompressedBytes text value o :
    parseStreamSize text = Returned value ->
    Accepts "--uncompressed-bytes" text o (set_uncompressedBufferSize value o)
| AcceptsLogContainerBytes text value o :
    parseUint32 text = Returned value ->
    Accepts "--log-container-bytes" text o (set_logContainerSize value o)
| AcceptsCompressionThreads text value o :
    parseUint32 text = Returned value -> value <> 0 ->
    Accepts "--compression-threads" text o (set_compressionThreads value o)
| AcceptsOutputDir text o :
    Accepts "--output-dir" text o (set_outputDirectory text o).

(** [Parses o args o']: [args] is a sequence of accepted flag/value pairs
    leading from [o] to [o']. *)
Inductive Parses : CommandLineOptions -> list string -> CommandLineOptions -> Prop :=
| ParsesNil o : Parses o [] o
| ParsesCons o argument text o1 rest o' :
    Accepts argument text o o1 -> Parses o1 rest o' ->
    Parses o (argument :: text :: rest) o'.

(** The ranges of the option fields that the C++ types and the parser's
    checks give. *)
Record InRange (o : CommandLineOptions) : Prop := {
  fileCount_range : 1 <= fileCount o < 2 ^ 64;
  messagesPerFile_range : 1 <= messagesPerFile o < 2 ^ 64;
  queueSize_range : 1 <= queueSize o < 2 ^ 32;
  uncompressedBufferSize_range : 0 <= uncompressedBufferSize o < 2 ^ 63;
  logContainerSize_range : 0 <= logContainerSize o < 2 ^ 32;
  compressionThreads_range : 0 <= compressionThreads o < 2 ^ 32
}.

(** The frame with sequence number [first + j]. *)
Definition frameAt (index : Z) (first : Z) (j : nat) : CanMessage.t :=
  makeMessage index (first + Z.of_nat j).

(** The slot vectors keep the size they were allocated with. *)
Record WfSlots (n : nat) (s : Slots) : Prop := {
  results_length : length (results s) = n;
  errors_length : length (errors s) = n;
  calls_length : length (calls s) = n
}.

(** The outcome of the task with index [k] on freshly allocated slots. *)
Definition taskOutcome (w : World) (options : CommandLineOptions) (k : nat)
    : list LibraryCall * WriterResult * exception_ptr :=
  runWriter (writer w (Z.of_nat k)) (makeConfig options (Z.of_nat k))
            zeroResult None.

(** Concrete environments for the examples. *)
Module Examples.

Definition defaults : LibraryDefaults :=
  {| defaultLogContainerSize := 131072; compressionThreadCount := 4 |}.

Definition healthy : WriterBehaviour :=
  {| onOpen := fun _ => OpenSucceeds; onWrite := fun _ _ => None;
     onClose := None; clockStart := 5; clockEnd := 9 |}.

Definition unwritable : WriterBehaviour :=
  {| onOpen := fun _ => OpenFails; onWrite := fun _ _ => None;
     onClose := None; clockStart := 5; clockEnd := 9 |}.

Definition fullDisk : WriterBehaviour :=
  {| onOpen := fun _ => OpenSucceeds;
     onWrite := fun i _ => if 1 <=? i then Some "write failed" else None;
     onClose := None; clockStart := 2; clockEnd := 3 |}.

(** Every writer works. *)
Definition good : World :=
  {| libraryDefaults := defaults; mkdir := fun _ => MkdirCreated;
     writer := fun _ => healthy; overallStart := 0; overallEnd := 100 |}.

(** Task 1 cannot open its file and task 2 fails at its second write. *)
Definition faulty : World :=
  {| libraryDefaults := defaults; mkdir := fun _ => MkdirExists;
     writer := fun k => if k =? 1 then unwritable
                        else if k =? 2 then fullDisk else healthy;
     overallStart := 0; overallEnd := 100 |}.

End Examples.

(** ** Further notions used in the properties *)

(** A text at which the digit scan stops: empty, or starting with a
    character that is not a decimal digit. *)
Definition stopsScan (tail : string) : Prop :=
  match tail with
  | EmptyString => True
  | String c _ => CStdlib.digitValue c = None
  end.

(** The flags that take a value. *)
Definition valueFlags : list string :=
  ["--files"; "--messages"; "--queue-size"; "--uncompressed-bytes";
   "--log-container-bytes"; "--compression-threads"; "--output-dir"].

(** Every argument the loop recognises in flag position. *)
Definition knownFlags : list string := "-h" :: "--help" :: valueFlags.

(** ** The single-file benchmark ([file_write_benchmark.cpp])

    One writer, no thread: the program writes copies of a prototype frame
    until the steady clock passes a deadline one second after the start,
    closes the file, measures its size and prints statistics.  It has no
    [try] block: an exception of the library ends the program through
    [std::terminate]. *)

Module FileWriteBenchmark.

Definition outputPath : string := "build/file_write_benchmark_output.blf".

(** [prototype]: channel 1, length code 8 (the size of the payload
    array), identifier 0x123, payload bytes zero. *)
Definition prototype : CanMessage.t :=
  {| CanMessage.channel := 1;
     CanMessage.dlc := Int.to_uint8 (Z.of_nat (length (CanMessage.data CanMessage.fresh)));
     CanMessage.id := 291;
     CanMessage.objectTimeStamp := 0;
     CanMessage.flags := 0;
     CanMessage.data := replicate 8 0 |}.

(** [new CanMessage(prototype)] with [objectTimeStamp = frameCount]. *)
Definition stamped (frameCount : Z) : CanMessage.t :=
  {| CanMessage.channel := CanMessage.channel prototype;
     CanMessage.dlc := CanMessage.dlc prototype;
     CanMessage.id := CanMessage.id prototype;
     CanMessage.objectTimeStamp := Int.to_uint64 frameCount;
     CanMessage.flags := CanMessage.flags prototype;
     CanMessage.data := CanMessage.data prototype |}.

(** The environment of one run: [now k] is the [k]-th reading of the
    steady clock (the first reading is [now 0]) and [second] the number
    of its ticks in one second; [opens], [writes i] and [closes] say
    whether the library call throws; [objectSize] is what
    [calculateObjectSize] returns for the prototype; [tellg] is what the
    stream in [fileSize] reports, [None] when it cannot be opened. *)
Record Environment := {
  now : nat -> Z;
  second : Z;
  opens : option string;
  writes : Z -> option string;
  closes : option string;
  objectSize : Z;
  tellg : option Z
}.

Inductive Event :=
| Call (call : LibraryCall)
| Measure (path : string)
| ErrorLine (text : string)
| Statistics (frames : Z) (bytes : Z) (frameSize : Z) (ticks : Z)
| Remove (path : string).

(** How the program ends: [Done status] when [main] returns, [Raised] when
    an exception leaves it. *)
Record Run := {
  events : list Event;
  ending : Attempt Z
}.

Definition fileSize (e : Environment) : Z :=
  match tellg e with
  | None => 0
  | Some position => Int.to_size_t position
  end.

(** The [while] loop, about to take clock reading number [reading] with
    [frameCount] frames written.  It gives the library calls made, the
    exception that left the loop if any, the final frame count and the
    number of the next clock reading; [None] when [fuel] readings did not
    suffice to see the deadline pass. *)
Fixpoint writeLoop (e : Environment) (deadline : Z) (fuel : nat)
    (reading : nat) (frameCount : Z)
    : option (list LibraryCall * option string * Z * nat) :=
  match fuel with
  | O => None
  | S fuel' =>
      if now e reading <? deadline then
        let canMessage := stamped frameCount in
        match writes e frameCount with
        | Some what => Some ([Write canMessage], Some what, frameCount, S reading)
        | None =>
            match writeLoop e deadline fuel' (S reading)
                    (Int.to_size_t (frameCount + 1)) with
            | Some (made, thrown, count, next) =>
                Some (Write canMessage :: made, thrown, count, next)
            | None => None
            end
        end
      else Some ([], None, frameCount, S reading)
  end.

Definition main (e : Environment) (fuel : nat) : option Run :=
  match opens e with
  | Some what =>
      Some {| events := [Call (Open outputPath)]; ending := Raised what |}
  | None =>
      let start := now e 0 in
      let deadline := start + second e in
      match writeLoop e deadline fuel 1 0 with
      | None => None
      | Some (made, Some what, _, _) =>
          Some {| events := Call <$> (Open outputPath :: made);
                  ending := Raised what |}
      | Some (made, None, frameCount, next) =>
          match closes e with
          | Some what =>
              Some {| events := Call <$> (Open outputPath :: made ++ [Close]);
                      ending := Raised what |}
          | None =>
              let finish := now e (S next) in
              let bytesWritten := fileSize e in
              if bytesWritten =? 0 then
                Some {| events := (Call <$> (Open outputPath :: made ++ [Close]))
                                    ++ [Measure outputPath;
                                        ErrorLine "Failed to measure file size."];
                        ending := Done 1 |}
              else
                Some {| events := (Call <$> (Open outputPath :: made ++ [Close]))
                                    ++ [Measure outputPath;
                                        Statistics frameCount bytesWritten
                                          (objectSize e) (finish - start);
                                        Remove outputPath];
                        ending := Done 0 |}
          end
      end
  end.

(** Clock readings 1..n lie before the deadline and reading n+1 does
    not: the loop body runs exactly [n] times. *)
Definition deadlineAfter (e : Environment) (n : nat) : Prop :=
  (forall k, (1 <= k <= n)%nat -> now e k < now e 0 + second e) /\
  now e 0 + second e <= now e (S n).

(** An environment in which the clock advances a quarter of a second per
    reading and the file holds 96 bytes in the end. *)
Definition example : Environment :=
  {| now := fun k => 250 * Z.of_nat k; second := 1000;
     opens := None; writes := fun _ => None; closes := None;
     objectSize := 48; tellg := Some 96 |}.

End FileWriteBenchmark.

(** * Properties *)

(** ** The model on concrete inputs *)

Example strtoull_minus_one : CStdlib.strtoull "-1" = (2 ^ 64 - 1, "").
Proof. reflexivity. Qed.

Example strtoull_stops_at_text : CStdlib.strtoull "  +12x" = (12, "x").
Proof. reflexivity. Qed.

Example strtoull_empty : CStdlib.strtoull "" = (0, "").
Proof. reflexivity. Qed.

Example strtoull_lone_sign : CStdlib.strtoull "-" = (0, "-").
Proof. reflexivity. Qed.

Example strtoull_saturates :
  CStdlib.strtoull "18446744073709551616" = (2 ^ 64 - 1, "").
Proof. reflexivity. Qed.

Example strtoll_saturates :
  CStdlib.strtoll "-99999999999999999999" = (- 2 ^ 63, "").
Proof. reflexivity. Qed.

Example parse_files_zero :
  parseCommandLine Examples.defaults ["prog"; "--files"; "0"]
  = Thrown "--files requires a positive value".
Proof. reflexivity. Qed.

Example parse_missing_value :
  parseCommandLine Examples.defaults ["prog"; "--messages"]
  = Thrown "missing value for argument".
Proof. reflexivity. Qed.

Example parse_not_a_number :
  parseCommandLine Examples.defaults ["prog"; "--queue-size"; "12abc"]
  = Thrown "unable to parse numeric argument".
Proof. reflexivity. Qed.

Example parse_negative_uint32 :
  parseCommandLine Examples.defaults ["prog"; "--queue-size"; "-5"]
  = Thrown "numeric argument exceeds uint32_t range".
Proof. reflexivity. Qed.

Example parse_small_buffer :
  parseCommandLine Examples.defaults ["prog"; "--uncompressed-bytes"; "5"]
  = Returned {| fileCount := 10; messagesPerFile := 200000; queueSize := 10000;
                uncompressedBufferSize := 131072; logContainerSize := 131072;
                compressionThreads := 4;
                outputDirectory := "blf_multi_writer_logs" |}.
Proof. reflexivity. Qed.

Example first_frames :
  framesWritten
    (runWriter Examples.healthy
       {| index := 2; wMessagesPerFile := 2; wQueueSize := 10;
          wUncompressedBufferSize := 4096; wLogContainerSize := 4096;
          wCompressionThreads := 1; wOutputDirectory := "out" |}
       zeroResult None).1.1
  = [ {| CanMessage.channel := 3; CanMessage.dlc := 8; CanMessage.id := 256;
         CanMessage.objectTimeStamp := 0; CanMessage.flags := 0;
         CanMessage.data := [0; 1; 2; 3; 4; 5; 6; 7] |};
      {| CanMessage.channel := 3; CanMessage.dlc := 8; CanMessage.id := 257;
         CanMessage.objectTimeStamp := 1; CanMessage.flags := 0;
         CanMessage.data := [1; 2; 3; 4; 5; 6; 7; 8] |} ].
Proof. reflexivity. Qed.

(** Tasks 1 and 2 both fail; the run reports the failure of task 1 only,
    and task 0 has its result. *)
Example faulty_run :
  let run := main Examples.faulty [2; 0; 1]%nat
               ["prog"; "--files"; "3"; "--messages"; "2"; "--output-dir"; "out"] in
  last (events run)
    = Some (Stderr "Error: unable to open output file 'out/can_channel_2.blf'") /\
  exitStatus run = EXIT_FAILURE /\
  results (finalSlots run)
    = [ {| messagesWritten := 2; secondsTaken := 4 |}; zeroResult; zeroResult ] /\
  errors (finalSlots run)
    = [ None; Some "unable to open output file 'out/can_channel_2.blf'";
        Some "write failed" ].
Proof. vm_compute. repeat split; reflexivity. Qed.

(** ** Machine integers *)

Lemma to_streamsize_id (x : Z) : - 2 ^ 63 <= x < 2 ^ 63 -> Int.to_streamsize x = x.
Proof.
  intros H. unfold Int.to_streamsize, Int.to_signed.
  change (2 ^ (64 - 1)) with (2 ^ 63). rewrite Z.mod_small; lia.
Qed.

Lemma to_unsigned_range (w x : Z) : 0 <= w -> 0 <= Int.to_unsigned w x < 2 ^ w.
Proof. intros H. unfold Int.to_unsigned. apply Z.mod_pos_bound. lia. Qed.

Lemma to_unsigned_id (w x : Z) : 0 <= x < 2 ^ w -> Int.to_unsigned w x = x.
Proof. intros H. unfold Int.to_unsigned. apply Z.mod_small. lia. Qed.

(** ** The numeric parsers *)

Lemma parseSizeT_range text value :
  parseSizeT text = Returned value -> 0 <= value < 2 ^ 64.
Proof.
  unfold parseSizeT. destruct (CStdlib.strtoull text) as [v rest].
  destruct (negb _); [discriminate |]. intros [= <-].
  apply to_unsigned_range. lia.
Qed.

Lemma parseUint32_range text value :
  parseUint32 text = Returned value -> 0 <= value < 2 ^ 32.
Proof.
  unfold parseUint32. destruct (CStdlib.strtoul text) as [v rest].
  destruct (negb _); [discriminate |].
  destruct (4294967295 <? v); [discriminate |]. intros [= <-].
  apply to_unsigned_range. lia.
Qed.

Lemma strtoll_range text : Int.LLONG_MIN <= (CStdlib.strtoll text).1 <= Int.LLONG_MAX.
Proof.
  unfold CStdlib.strtoll, Int.LLONG_MIN, Int.LLONG_MAX.
  destruct (CStdlib.scanInteger text) as [[[negative magnitude] rest]|]; simpl; [| lia].
  repeat case_match; simpl; lia.
Qed.

Lemma parseStreamSize_range text value :
  parseStreamSize text = Returned value -> 1 <= value < 2 ^ 63.
Proof.
  unfold parseStreamSize. pose proof (strtoll_range text) as Hr.
  destruct (CStdlib.strtoll text) as [v rest]. simpl in Hr.
  unfold Int.LLONG_MIN, Int.LLONG_MAX in Hr.
  destruct (negb _); [discriminate |].
  destruct (Z.leb_spec v 0); [discriminate |]. intros [= <-].
  rewrite to_streamsize_id; lia.
Qed.

(** ** The argument loop *)

Lemma parseArguments_step argv0 argument text o o1 rest :
  Accepts argument text o o1 ->
  parseArguments argv0 o (argument :: text :: rest) = parseArguments argv0 o1 rest.
Proof.
  intros Hacc; destruct Hacc as
    [text value o Hp Hv | text value o Hp Hv | text value o Hp Hv
    | text value o Hp | text value o Hp | text value o Hp Hv | text o];
    cbn [parseArguments requireValue bind]; simpl String.eqb; cbn [orb];
    try rewrite Hp; cbn [bind];
    try (destruct (Z.eqb_spec value 0); [contradiction |]); reflexivity.
Qed.

Lemma parseArguments_inv argv0 o argument rest o' :
  parseArguments argv0 o (argument :: rest) = Returned o' ->
  exists text rest' o1,
    rest = text :: rest' /\ Accepts argument text o o1 /\
    parseArguments argv0 o1 rest' = Returned o'.
Proof.
  cbn [parseArguments].
  destruct (String.eqb_spec argument "-h") as [-> | _]; [discriminate |].
  destruct (String.eqb_spec argument "--help") as [-> | _]; [discriminate |].
  cbn [orb].
  repeat match goal with
  | |- context [String.eqb argument ?flag] =>
      destruct (String.eqb_spec argument flag) as [-> | _]
  end; try discriminate;
  (destruct rest as [| text rest']; cbn [requireValue]; [discriminate |]);
  try (match goal with
       | |- context [bind ?p _] => destruct p as [value | |] eqn:Hp
       end; cbn [bind]; try discriminate;
       try (destruct (Z.eqb_spec value 0); [discriminate |]));
  intros Hrest; exists text, rest'; eexists; (split; [reflexivity |]);
  (split; [| exact Hrest]); econstructor; eassumption.
Qed.

Lemma parseArguments_Parses argv0 args :
  forall o o', parseArguments argv0 o args = Returned o' <-> Parses o args o'.
Proof.
  induction args as [args IH] using (induction_ltof1 _ (@length string)).
  unfold ltof in IH. intros o o'; split.
  - destruct args as [| argument rest].
    + intros [= <-]. constructor.
    + intros H. apply parseArguments_inv in H as (text & rest' & o1 & -> & Hacc & H).
      econstructor; [exact Hacc |]. apply IH; [simpl; lia | exact H].
  - intros HP. destruct HP as [o | o argument text o1 rest o' Hacc HP].
    + reflexivity.
    + rewrite (parseArguments_step _ _ _ _ _ _ Hacc). apply IH; [simpl; lia | exact HP].
Qed.

Lemma Parses_app o pre o1 rest o' :
  Parses o pre o1 -> Parses o1 rest o' -> Parses o (pre ++ rest) o'.
Proof.
  induction 1 as [| o argument text o2 pre o1 Hacc _ IH]; intros Hrest; [exact Hrest |].
  simpl. econstructor; [exact Hacc | exact (IH Hrest)].
Qed.

(** A prefix that parses completely is consumed, whatever follows it. *)
Lemma parseArguments_app argv0 o pre o1 rest :
  parseArguments argv0 o pre = Returned o1 ->
  parseArguments argv0 o (pre ++ rest) = parseArguments argv0 o1 rest.
Proof.
  intros H. apply parseArguments_Parses in H. revert rest.
  induction H as [| o argument text o2 pre o1 Hacc _ IH]; intros rest; [reflexivity |].
  cbn [app]. rewrite (parseArguments_step _ _ _ _ _ _ Hacc). apply IH.
Qed.

Lemma Accepts_InRange argument text o o1 :
  Accepts argument text o o1 -> InRange o -> InRange o1.
Proof.
  intros Hacc [HF HM HQ HU HL HC].
  destruct Hacc as
    [text value o Hp Hv | text value o Hp Hv | text value o Hp Hv
    | text value o Hp | text value o Hp | text value o Hp Hv | text o];
    try (apply parseSizeT_range in Hp); try (apply parseUint32_range in Hp);
    try (apply parseStreamSize_range in Hp);
    constructor; simpl; lia.
Qed.

Lemma Parses_InRange o args o' : Parses o args o' -> InRange o -> InRange o'.
Proof. induction 1; eauto using Accepts_InRange. Qed.

Lemma initialOptions_InRange defaults :
  Int.is_uint32 (defaultLogContainerSize defaults) ->
  Int.is_uint32 (compressionThreadCount defaults) ->
  InRange (initialOptions defaults).
Proof.
  unfold Int.is_uint32. intros HL HC. constructor; simpl; try lia.
  rewrite (to_streamsize_id (defaultLogContainerSize defaults)) by lia.
  rewrite to_streamsize_id; lia.
Qed.

Lemma clampBuffer_InRange o : InRange o -> InRange (clampBuffer o).
Proof.
  intros [HF HM HQ HU HL HC]. unfold clampBuffer.
  rewrite to_streamsize_id by lia.
  destruct (Z.ltb_spec (uncompressedBufferSize o) (logContainerSize o));
    constructor; simpl; lia.
Qed.

Lemma parseCommandLine_Returned defaults argv options :
  parseCommandLine defaults argv = Returned options <->
  exists parsed, Parses (initialOptions defaults) (tl argv) parsed /\
                 options = clampBuffer parsed.
Proof.
  unfold parseCommandLine. split.
  - destruct (parseArguments _ _ _) as [parsed | |] eqn:H; cbn [bind]; try discriminate.
    intros [= <-]. exists parsed. split; [| reflexivity].
    eapply parseArguments_Parses, H.
  - intros (parsed & HP & ->). apply parseArguments_Parses with (argv0 := hd "" argv) in HP.
    rewrite HP. reflexivity.
Qed.

Lemma parseCommandLine_InRange defaults argv options :
  Int.is_uint32 (defaultLogContainerSize defaults) ->
  Int.is_uint32 (compressionThreadCount defaults) ->
  parseCommandLine defaults argv = Returned options -> InRange options.
Proof.
  intros HL HC H. apply parseCommandLine_Returned in H as (parsed & HP & ->).
  apply clampBuffer_InRange. eapply Parses_InRange; [exact HP |].
  apply initialOptions_InRange; assumption.
Qed.

(** ** Frames *)

Lemma land_255_mod (x : Z) : Z.land x 255 = x mod 256.
Proof. change 255 with (Z.ones 8). rewrite Z.land_ones by lia. reflexivity. Qed.

Lemma payload_byte (x : Z) :
  Int.to_uint8 (Z.land (Int.to_size_t x) 255) = x mod 256.
Proof.
  unfold Int.to_uint8, Int.to_size_t, Int.to_unsigned.
  rewrite land_255_mod. change (2 ^ 8) with 256. rewrite Z.mod_mod by lia.
  apply Z.mod_mod_divide. exists (2 ^ 56). reflexivity.
Qed.

Lemma makeMessage_data index i :
  CanMessage.data (makeMessage index i)
  = (fun byteIndex => (i + Z.of_nat byteIndex) mod 256) <$> seq 0 8.
Proof.
  unfold makeMessage. cbn [CanMessage.data payloadCount fillPayload].
  cbn [CanMessage.fresh CanMessage.data replicate].
  cbn [list_insert insert]. rewrite !payload_byte. reflexivity.
Qed.

Lemma makeMessage_id_range index i :
  256 <= CanMessage.id (makeMessage index i) <= 2047.
Proof.
  cbn [makeMessage CanMessage.id]. unfold Int.to_uint32, Int.to_unsigned.
  pose proof (Z.mod_pos_bound i 1792 ltac:(lia)).
  rewrite Z.mod_small; lia.
Qed.

Lemma makeMessage_id_period index i :
  CanMessage.id (makeMessage index (i + 1792)) = CanMessage.id (makeMessage index i).
Proof.
  cbn [makeMessage CanMessage.id]. do 2 f_equal.
  replace (i + 1792) with (i + 1 * 1792) by lia. apply Z.mod_add. lia.
Qed.

(** ** The writer task *)

Lemma writeMessages_calls b index count :
  forall i, exists k,
    (k <= count)%nat /\
    (writeMessages b index count i).1 = (fun j => Write (frameAt index i j)) <$> seq 0 k /\
    ((writeMessages b index count i).2 = None -> k = count).
Proof.
  induction count as [| count IH]; intros i.
  - exists 0%nat. repeat split; reflexivity || lia.
  - cbn [writeMessages].
    destruct (onWrite b i (makeMessage index i)) as [what |].
    + exists 1%nat. split; [lia |]. split; [| discriminate].
      cbn. unfold frameAt. rewrite Z.add_0_r. reflexivity.
    + destruct (IH (i + 1)) as (k & Hk & Hcalls & Hnone).
      destruct (writeMessages b index count (i + 1)) as [calls thrown].
      cbn [fst snd] in *. exists (S k). split; [lia |]. split.
      * cbn [seq fmap list_fmap]. rewrite <- fmap_S_seq, <- list_fmap_compose.
        unfold frameAt at 1. rewrite Z.add_0_r. f_equal. rewrite Hcalls.
        apply list_fmap_ext. intros _ j _. unfold frameAt. cbn. do 2 f_equal. lia.
      * intros ->. f_equal. apply Hnone. reflexivity.
Qed.

Lemma framesWritten_app l1 l2 :
  framesWritten (l1 ++ l2) = framesWritten l1 ++ framesWritten l2.
Proof. apply omap_app. Qed.

Lemma pathsOpened_app l1 l2 :
  pathsOpened (l1 ++ l2) = pathsOpened l1 ++ pathsOpened l2.
Proof. apply omap_app. Qed.

Lemma framesWritten_writes {A} (f : A -> CanMessage.t) (l : list A) :
  framesWritten ((fun j => Write (f j)) <$> l) = f <$> l.
Proof. induction l as [| a l IH]; [reflexivity |]. cbn. f_equal. exact IH. Qed.

Lemma pathsOpened_writes {A} (f : A -> CanMessage.t) (l : list A) :
  pathsOpened ((fun j => Write (f j)) <$> l) = [].
Proof. induction l as [| a l IH]; [reflexivity |]. cbn. exact IH. Qed.

(** The frames a task hands to the library are the first [k] frames of
    its fixed sequence; all of them when the [try] block completes. *)
Lemma writerBody_frames b config :
  exists k,
    (k <= Z.to_nat (wMessagesPerFile config))%nat /\
    framesWritten (writerBody b config).1 = frameAt (index config) 0 <$> seq 0 k /\
    (forall written, (writerBody b config).2 = Done written ->
                     k = Z.to_nat (wMessagesPerFile config)).
Proof.
  unfold writerBody.
  destruct (onOpen b (fileName config)) as [| | what].
  - destruct (writeMessages_calls b (index config)
                (Z.to_nat (wMessagesPerFile config)) 0) as (k & Hk & Hcalls & Hnone).
    destruct (writeMessages b (index config) _ 0) as [writes thrown].
    cbn [fst snd] in *. exists k. split; [exact Hk |].
    destruct thrown as [what |]; [| destruct (onClose b) as [what |]];
      cbn [fst snd]; rewrite ?framesWritten_app, Hcalls, framesWritten_writes;
      cbn; rewrite ?app_nil_r; (split; [reflexivity |]);
      intros written; try discriminate; intros _; apply Hnone; reflexivity.
  - exists 0%nat. split; [lia |]. split; [reflexivity | discriminate].
  - exists 0%nat. split; [lia |]. split; [reflexivity | discriminate].
Qed.

Lemma writerBody_paths b config :
  pathsOpened (writerBody b config).1 = [fileName config].
Proof.
  unfold writerBody.
  destruct (onOpen b (fileName config)) as [| | what]; try reflexivity.
  destruct (writeMessages_calls b (index config)
              (Z.to_nat (wMessagesPerFile config)) 0) as (k & _ & Hcalls & _).
  destruct (writeMessages b (index config) _ 0) as [writes thrown].
  cbn [fst snd] in *.
  destruct thrown as [what |]; [| destruct (onClose b) as [what |]];
    cbn [fst snd]; rewrite ?pathsOpened_app, Hcalls, pathsOpened_writes;
    reflexivity.
Qed.

Lemma runWriter_calls b config result error :
  (runWriter b config result error).1.1 = (writerBody b config).1.
Proof.
  unfold runWriter. destruct (writerBody b config) as [made [written | what]]; reflexivity.
Qed.

(** The two ways [runWriter] can end. *)
Lemma runWriter_cases b config result error :
  ((runWriter b config result error).2 = error /\
   (runWriter b config result error).1.2
   = {| messagesWritten := wMessagesPerFile config;
        secondsTaken := clockEnd b - clockStart b |} /\
   exists written, (writerBody b config).2 = Done written)
  \/
  (exists what, (runWriter b config result error).2 = Some what /\
                (runWriter b config result error).1.2 = result /\
                (writerBody b config).2 = Raised what).
Proof.
  unfold runWriter.
  destruct (writerBody b config) as [made [written | what]] eqn:Hbody; cbn [fst snd].
  - left. split; [reflexivity |]. split; [| eauto].
    unfold writerBody in Hbody.
    repeat case_match; simplify_eq; reflexivity.
  - right. eauto.
Qed.

(** ** The threads and their slots *)

Lemma initialSlots_wf n : WfSlots n (initialSlots n).
Proof. constructor; apply length_replicate. Qed.

Lemma runThread_wf w options n s k : WfSlots n s -> WfSlots n (runThread w options s k).
Proof.
  intros [Hr He Hc]. unfold runThread.
  destruct (results s !! k) as [result |]; [| constructor; assumption].
  destruct (errors s !! k) as [error |]; [| constructor; assumption].
  destruct (runWriter _ _ result error) as [[made result'] error'].
  constructor; cbn; rewrite length_insert; assumption.
Qed.

(** A thread leaves the slots of the other tasks alone. *)
Lemma runThread_other w options s k j :
  j <> k ->
  results (runThread w options s k) !! j = results s !! j /\
  errors (runThread w options s k) !! j = errors s !! j /\
  calls (runThread w options s k) !! j = calls s !! j.
Proof.
  intros Hne. unfold runThread.
  destruct (results s !! k) as [result |]; [| auto].
  destruct (errors s !! k) as [error |]; [| auto].
  destruct (runWriter _ _ result error) as [[made result'] error'].
  cbn. rewrite !list_lookup_insert_ne by congruence. auto.
Qed.

Lemma runThread_own w options n s k result error :
  WfSlots n s -> results s !! k = Some result -> errors s !! k = Some error ->
  let outcome := runWriter (writer w (Z.of_nat k)) (makeConfig options (Z.of_nat k))
                           result error in
  results (runThread w options s k) !! k = Some outcome.1.2 /\
  errors (runThread w options s k) !! k = Some outcome.2 /\
  calls (runThread w options s k) !! k = Some outcome.1.1.
Proof.
  intros [Hr He Hc] Hres Herr. unfold runThread. rewrite Hres, Herr.
  apply lookup_lt_Some in Hres.
  destruct (runWriter _ _ result error) as [[made result'] error'].
  cbn. rewrite !list_lookup_insert_eq by lia. auto.
Qed.

Lemma runThreads_cons w options k schedule s :
  runThreads w options (k :: schedule) s
  = runThreads w options schedule (runThread w options s k).
Proof. reflexivity. Qed.

Lemma runThreads_wf w options n schedule :
  forall s, WfSlots n s -> WfSlots n (runThreads w options schedule s).
Proof.
  induction schedule as [| k schedule IH]; intros s Hwf; [exact Hwf |].
  rewrite runThreads_cons. apply IH, runThread_wf, Hwf.
Qed.

Lemma runThreads_other w options schedule j :
  j ∉ schedule -> forall s,
  results (runThreads w options schedule s) !! j = results s !! j /\
  errors (runThreads w options schedule s) !! j = errors s !! j /\
  calls (runThreads w options schedule s) !! j = calls s !! j.
Proof.
  induction schedule as [| k schedule IH]; intros Hnotin s; [auto |].
  apply not_elem_of_cons in Hnotin as [Hne Hnotin].
  rewrite runThreads_cons.
  destruct (IH Hnotin (runThread w options s k)) as (-> & -> & ->).
  apply runThread_other, Hne.
Qed.

(** Whatever the order of completion, the slots of a task that runs once
    hold what its own [runWriter] made of them. *)
Lemma runThreads_own w options n schedule j :
  NoDup schedule -> j ∈ schedule -> forall s result error,
  WfSlots n s -> results s !! j = Some result -> errors s !! j = Some error ->
  let outcome := runWriter (writer w (Z.of_nat j)) (makeConfig options (Z.of_nat j))
                           result error in
  results (runThreads w options schedule s) !! j = Some outcome.1.2 /\
  errors (runThreads w options schedule s) !! j = Some outcome.2 /\
  calls (runThreads w options schedule s) !! j = Some outcome.1.1.
Proof.
  induction schedule as [| k schedule IH]; intros Hnodup Hin s result error Hwf Hres Herr.
  - inversion Hin.
  - apply NoDup_cons in Hnodup as [Hfresh Hnodup]. rewrite runThreads_cons.
    destruct (decide (j = k)) as [-> | Hne].
    + destruct (runThreads_other w options schedule k Hfresh (runThread w options s k))
        as (-> & -> & ->).
      eapply runThread_own; eassumption.
    + apply elem_of_cons in Hin as [-> | Hin]; [congruence |].
      destruct (runThread_other w options s k j Hne) as (Hr & He & _).
      apply IH; [assumption | assumption | apply runThread_wf, Hwf | congruence ..].
Qed.

Lemma runThreads_initial w options n schedule k :
  schedule ≡ₚ seq 0 n -> (k < n)%nat ->
  results (runThreads w options schedule (initialSlots n)) !! k
    = Some (taskOutcome w options k).1.2 /\
  errors (runThreads w options schedule (initialSlots n)) !! k
    = Some (taskOutcome w options k).2 /\
  calls (runThreads w options schedule (initialSlots n)) !! k
    = Some (taskOutcome w options k).1.1.
Proof.
  intros Hperm Hk. unfold taskOutcome.
  eapply runThreads_own.
  - rewrite Hperm. apply NoDup_seq.
  - rewrite Hperm. apply elem_of_seq. lia.
  - apply initialSlots_wf.
  - cbn. apply lookup_replicate. auto.
  - cbn. apply lookup_replicate. auto.
Qed.

(** ** The scan for the first failure *)



(** ** main *)

(** The shape of a run that gets past parsing and directory creation. *)
Lemma main_started w schedule argv options :
  parseCommandLine (libraryDefaults w) argv = Returned options ->
  ensureDirectoryExists w (outputDirectory options) = true ->
  let slots := runThreads w options schedule
                 (initialSlots (Z.to_nat (fileCount options))) in
  finalSlots (main w schedule argv) = slots /\
  exists final status,
    events (main w schedule argv)
      = [Mkdir (outputDirectory options)] ++ launchesOf options ++ joinsOf options
          ++ [final] /\
    exitStatus (main w schedule argv) = status /\
    match firstError (errors slots) with
    | Some what => final = Stderr ("Error: " +:+ what) /\ status = EXIT_FAILURE
    | None =>
        final = Summary (printSummary options (results slots)
                           (overallEnd w - overallStart w)) /\
        status = EXIT_SUCCESS
    end.
Proof.
  intros Hparse Hdir. unfold main. rewrite Hparse, Hdir. cbn [negb].
  destruct (firstError _) as [what |]; cbn [finalSlots events exitStatus];
    (split; [reflexivity |]); eexists _, _; eauto.
Qed.

(** ** Claims about the command line *)

(** A zero value is rejected where the parser checks for it. *)
Lemma zero_rejected defaults argv0 flag :
  flag ∈ ["--files"; "--messages"; "--queue-size"; "--uncompressed-bytes";
          "--compression-threads"] ->
  exists what, parseCommandLine defaults [argv0; flag; "0"] = Thrown what.
Proof.
  intros Hflag. repeat (apply elem_of_cons in Hflag as [-> | Hflag]);
    [eexists; reflexivity .. | inversion Hflag].
Qed.

(** C1 (evaluation at the failing inputs): [--log-container-bytes 0] is
    accepted and gives a configuration whose log container size is 0, and
    [--files -1] is accepted and gives the file count 2^64 - 1; in both
    runs [main] goes on to create the output directory. *)
Theorem parseCommandLine_accepts_zero_and_negative (w : World) (schedule : list nat)
    (argv0 : string) :
  (exists options,
     parseCommandLine (libraryDefaults w) [argv0; "--log-container-bytes"; "0"]
       = Returned options /\
     logContainerSize options = 0 /\
     hd_error (events (main w schedule [argv0; "--log-container-bytes"; "0"]))
       = Some (Mkdir "blf_multi_writer_logs")) /\
  (exists options,
     parseCommandLine (libraryDefaults w) [argv0; "--files"; "-1"] = Returned options /\
     fileCount options = 2 ^ 64 - 1 /\
     hd_error (events (main w schedule [argv0; "--files"; "-1"]))
       = Some (Mkdir "blf_multi_writer_logs")).
Proof.
  split.
  - assert (Hparse :
      parseCommandLine (libraryDefaults w) [argv0; "--log-container-bytes"; "0"]
      = Returned (clampBuffer (set_logContainerSize 0 (initialOptions (libraryDefaults w)))))
      by reflexivity.
    eexists. split; [exact Hparse |]. split.
    + unfold clampBuffer. case_match; reflexivity.
    + unfold main. rewrite Hparse.
      assert (Hdir : outputDirectory (clampBuffer (set_logContainerSize 0
                       (initialOptions (libraryDefaults w)))) = "blf_multi_writer_logs")
        by (unfold clampBuffer; case_match; reflexivity).
      rewrite Hdir. repeat case_match; reflexivity.
  - assert (Hparse :
      parseCommandLine (libraryDefaults w) [argv0; "--files"; "-1"]
      = Returned (clampBuffer (set_fileCount (2 ^ 64 - 1) (initialOptions (libraryDefaults w)))))
      by reflexivity.
    eexists. split; [exact Hparse |]. split.
    + unfold clampBuffer. case_match; reflexivity.
    + unfold main. rewrite Hparse.
      assert (Hdir : outputDirectory (clampBuffer (set_fileCount (2 ^ 64 - 1)
                       (initialOptions (libraryDefaults w)))) = "blf_multi_writer_logs")
        by (unfold clampBuffer; case_match; reflexivity).
      rewrite Hdir. repeat case_match; reflexivity.
Qed.

Lemma clampBuffer_spec o :
  0 <= logContainerSize o < 2 ^ 32 ->
  logContainerSize (clampBuffer o) = logContainerSize o /\
  uncompressedBufferSize (clampBuffer o)
    = Z.max (uncompressedBufferSize o) (logContainerSize o).
Proof.
  intros HL. unfold clampBuffer. rewrite to_streamsize_id by lia.
  destruct (Z.ltb_spec (uncompressedBufferSize o) (logContainerSize o)); cbn; lia.
Qed.

(** The two size flags commute when both stand in flag position. *)
Lemma Parses_swap_sizes o pre o1 u l post o' :
  Parses o pre o1 ->
  Parses o (pre ++ "--uncompressed-bytes" :: u :: "--log-container-bytes" :: l :: post) o' ->
  Parses o (pre ++ "--log-container-bytes" :: l :: "--uncompressed-bytes" :: u :: post) o'.
Proof.
  intros Hpre H. apply (parseArguments_Parses "") in H.
  apply (parseArguments_Parses "") in Hpre.
  rewrite (parseArguments_app _ _ _ _ _ Hpre) in H.
  apply parseArguments_Parses in Hpre, H.
  eapply Parses_app; [exact Hpre |].
  inversion H as [| ? ? ? o2 ? ? Hu H']; subst. inversion Hu; subst.
  inversion H' as [| ? ? ? o3 ? ? Hl H'']; subst. inversion Hl; subst.
  econstructor; [econstructor; eassumption |].
  econstructor; [econstructor; eassumption |]. exact H''.
Qed.

Lemma Parses_swap_sizes' o pre o1 u l post o' :
  Parses o pre o1 ->
  Parses o (pre ++ "--log-container-bytes" :: l :: "--uncompressed-bytes" :: u :: post) o' ->
  Parses o (pre ++ "--uncompressed-bytes" :: u :: "--log-container-bytes" :: l :: post) o'.
Proof.
  intros Hpre H. apply (parseArguments_Parses "") in H.
  apply (parseArguments_Parses "") in Hpre.
  rewrite (parseArguments_app _ _ _ _ _ Hpre) in H.
  apply parseArguments_Parses in Hpre, H.
  eapply Parses_app; [exact Hpre |].
  inversion H as [| ? ? ? o2 ? ? Hl H']; subst. inversion Hl; subst.
  inversion H' as [| ? ? ? o3 ? ? Hu H'']; subst. inversion Hu; subst.
  econstructor; [econstructor; eassumption |].
  econstructor; [econstructor; eassumption |]. exact H''.
Qed.

(** C3: every configuration that [parseCommandLine] returns has
    [uncompressedBufferSize >= logContainerSize]; the returned buffer size
    is the larger of the buffer size and the container size that the
    argument loop ended with, so a smaller buffer is raised to exactly the
    container size; and exchanging the two size flags gives the same
    configuration. *)
Theorem parseCommandLine_clamps_buffer (defaults : LibraryDefaults)
    (argv : list string) (options : CommandLineOptions) :
  Int.is_uint32 (defaultLogContainerSize defaults) ->
  parseCommandLine defaults argv = Returned options ->
  logContainerSize options <= uncompressedBufferSize options /\
  (exists parsed,
     parseArguments (hd "" argv) (initialOptions defaults) (tl argv) = Returned parsed /\
     logContainerSize options = logContainerSize parsed /\
     uncompressedBufferSize options
       = Z.max (uncompressedBufferSize parsed) (logContainerSize parsed) /\
     (uncompressedBufferSize parsed < logContainerSize parsed ->
      uncompressedBufferSize options = logContainerSize options)) /\
  (forall pre o1 u l post,
     parseArguments (hd "" argv) (initialOptions defaults) pre = Returned o1 ->
     tl argv = pre ++ "--uncompressed-bytes" :: u :: "--log-container-bytes" :: l :: post ->
     parseCommandLine defaults
       (hd "" argv :: pre ++ "--log-container-bytes" :: l :: "--uncompressed-bytes" :: u :: post)
     = Returned options) /\
  (forall pre o1 u l post,
     parseArguments (hd "" argv) (initialOptions defaults) pre = Returned o1 ->
     tl argv = pre ++ "--log-container-bytes" :: l :: "--uncompressed-bytes" :: u :: post ->
     parseCommandLine defaults
       (hd "" argv :: pre ++ "--uncompressed-bytes" :: u :: "--log-container-bytes" :: l :: post)
     = Returned options).
Proof.
  intros HL Hparse.
  apply parseCommandLine_Returned in Hparse as (parsed & HP & ->).
  assert (Hrange : 0 <= logContainerSize parsed < 2 ^ 32).
  { clear -HL HP. unfold Int.is_uint32 in HL.
    change (defaultLogContainerSize defaults)
      with (logContainerSize (initialOptions defaults)) in HL.
    induction HP as [| o argument text o1 rest o' Hacc _ IH]; [exact HL |].
    apply IH. destruct Hacc; cbn; try exact HL.
    eapply parseUint32_range; eassumption. }
  destruct (clampBuffer_spec parsed Hrange) as [Hl Hu].
  split; [lia |]. split; [| split].
  - exists parsed. split; [apply parseArguments_Parses, HP |].
    split; [exact Hl |]. split; [exact Hu | lia].
  - intros pre o1 u l post Hpre Heq. apply parseCommandLine_Returned.
    apply parseArguments_Parses in Hpre.
    exists parsed. split; [| reflexivity]. cbn [tl].
    eapply Parses_swap_sizes; [exact Hpre |]. rewrite <- Heq. exact HP.
  - intros pre o1 u l post Hpre Heq. apply parseCommandLine_Returned.
    apply parseArguments_Parses in Hpre.
    exists parsed. split; [| reflexivity]. cbn [tl].
    eapply Parses_swap_sizes'; [exact Hpre |]. rewrite <- Heq. exact HP.
Qed.

Lemma parseCommandLine_clamps_buffer_witness :
  let options :=
    {| fileCount := 10; messagesPerFile := 200000; queueSize := 10000;
       uncompressedBufferSize := 4096; logContainerSize := 4096;
       compressionThreads := 4; outputDirectory := "blf_multi_writer_logs" |} in
  logContainerSize options <= uncompressedBufferSize options /\
  parseCommandLine Examples.defaults
    ["prog"; "--log-container-bytes"; "4096"; "--uncompressed-bytes"; "5"]
  = Returned options.
Proof.
  intros options.
  pose proof (parseCommandLine_clamps_buffer Examples.defaults
    ["prog"; "--uncompressed-bytes"; "5"; "--log-container-bytes"; "4096"] options
    ltac:(unfold Int.is_uint32; simpl; lia) ltac:(reflexivity))
    as (Hle & _ & Hswap & _).
  split; [exact Hle |].
  exact (Hswap [] _ "5" "4096" [] eq_refl eq_refl).
Defined.

(** C9 (as amended): when [-h] or [--help] stands in flag position, every
    argument before it forming accepted flag/value pairs, the program
    prints the usage text and exits with success status; no directory is
    created and no task is launched, whatever follows the flag. *)
Theorem main_help_in_flag_position (w : World) (schedule : list nat)
    (argv0 : string) (pre : list string) (o1 : CommandLineOptions)
    (flag : string) (post : list string) :
  flag = "-h" \/ flag = "--help" ->
  parseArguments argv0 (initialOptions (libraryDefaults w)) pre = Returned o1 ->
  main w schedule (argv0 :: pre ++ flag :: post)
  = {| events := [Stdout (usage argv0)];
       exitStatus := EXIT_SUCCESS;
       finalSlots := initialSlots 0 |}.
Proof.
  intros Hflag Hpre. unfold main, parseCommandLine. cbn [hd tl].
  rewrite (parseArguments_app _ _ _ _ _ Hpre).
  destruct Hflag as [-> | ->]; reflexivity.
Qed.

Lemma main_help_in_flag_position_witness :
  main Examples.good [] ["prog"; "--files"; "3"; "--help"; "--bogus"]
  = {| events := [Stdout (usage "prog")];
       exitStatus := EXIT_SUCCESS;
       finalSlots := initialSlots 0 |}.
Proof.
  apply (main_help_in_flag_position Examples.good [] "prog" ["--files"; "3"]
           (set_fileCount 3 (initialOptions Examples.defaults)) "--help" ["--bogus"]).
  - right. reflexivity.
  - reflexivity.
Defined.

(** C9 (the claim as stated fails): with [--help] as the value of
    [--output-dir] the program creates a directory named [--help] and
    launches its tasks; with [--help] after an unknown flag the run fails
    and prints no usage text. *)
Lemma help_among_arguments_counterexample :
  (exists rest,
     events (main Examples.good (seq 0 10) ["prog"; "--output-dir"; "--help"])
     = Mkdir "--help"
         :: Launch {| index := 0; wMessagesPerFile := 200000; wQueueSize := 10000;
                      wUncompressedBufferSize := 2097152;
                      wLogContainerSize := 131072; wCompressionThreads := 4;
                      wOutputDirectory := "--help" |}
         :: rest) /\
  main Examples.good (seq 0 10) ["prog"; "--bogus"; "--help"]
  = {| events := [Stderr "Error: Unknown argument '--bogus'. Pass --help for usage."];
       exitStatus := EXIT_FAILURE;
       finalSlots := initialSlots 0 |}.
Proof.
  split; [| reflexivity].
  destruct (main_started Examples.good (seq 0 10) ["prog"; "--output-dir"; "--help"]
              (clampBuffer (set_outputDirectory "--help" (initialOptions Examples.defaults)))
              eq_refl eq_refl) as (_ & final & status & Hevents & _).
  rewrite Hevents. eexists. reflexivity.
Qed.

(** ** Claims about the writer task and the orchestrator *)

(** C4: one execution of [runWriter] on a null failure slot ends in exactly
    one of two ways: the failure slot is still null and the result slot
    holds [messagesPerFile] and the measured duration, or the failure slot
    holds a captured failure and the result slot is as it was. *)
Theorem runWriter_exactly_one_outcome (b : WriterBehaviour) (config : WriterConfig)
    (result : WriterResult) :
  let outcome := runWriter b config result None in
  let populated :=
    outcome.2 = None /\
    outcome.1.2 = {| messagesWritten := wMessagesPerFile config;
                     secondsTaken := clockEnd b - clockStart b |} in
  let failed := exists what, outcome.2 = Some what /\ outcome.1.2 = result in
  (populated \/ failed) /\ ~ (populated /\ failed).
Proof.
  cbn zeta. split.
  - destruct (runWriter_cases b config result None) as [(He & Hr & _) | (what & He & Hr & _)].
    + left. auto.
    + right. eauto.
  - intros [[Hnone _] (what & Hsome & _)]. congruence.
Qed.

Lemma main_slots w schedule argv options k :
  parseCommandLine (libraryDefaults w) argv = Returned options ->
  ensureDirectoryExists w (outputDirectory options) = true ->
  schedule ≡ₚ seq 0 (Z.to_nat (fileCount options)) ->
  (k < Z.to_nat (fileCount options))%nat ->
  results (finalSlots (main w schedule argv)) !! k = Some (taskOutcome w options k).1.2 /\
  errors (finalSlots (main w schedule argv)) !! k = Some (taskOutcome w options k).2 /\
  calls (finalSlots (main w schedule argv)) !! k = Some (taskOutcome w options k).1.1.
Proof.
  intros Hparse Hdir Hperm Hk.
  destruct (main_started w schedule argv options Hparse Hdir) as [-> _].
  apply runThreads_initial; assumption.
Qed.

Lemma main_slots_wf w schedule argv options :
  parseCommandLine (libraryDefaults w) argv = Returned options ->
  ensureDirectoryExists w (outputDirectory options) = true ->
  WfSlots (Z.to_nat (fileCount options)) (finalSlots (main w schedule argv)).
Proof.
  intros Hparse Hdir.
  destruct (main_started w schedule argv options Hparse Hdir) as [-> _].
  apply runThreads_wf, initialSlots_wf.
Qed.

(** C10: after a run, the result slot of every task whose failure slot
    holds a failure is still value-initialised (0 messages, 0 seconds). *)
Theorem failed_task_result_untouched (w : World) (schedule : list nat)
    (argv : list string) (options : CommandLineOptions) (k : nat) (what : string) :
  parseCommandLine (libraryDefaults w) argv = Returned options ->
  ensureDirectoryExists w (outputDirectory options) = true ->
  schedule ≡ₚ seq 0 (Z.to_nat (fileCount options)) ->
  errors (finalSlots (main w schedule argv)) !! k = Some (Some what) ->
  results (finalSlots (main w schedule argv)) !! k = Some zeroResult.
Proof.
  intros Hparse Hdir Hperm Herr.
  assert (Hk : (k < Z.to_nat (fileCount options))%nat).
  { apply lookup_lt_Some in Herr.
    rewrite (errors_length _ _ (main_slots_wf w schedule argv options Hparse Hdir)) in Herr.
    exact Herr. }
  destruct (main_slots w schedule argv options k Hparse Hdir Hperm Hk) as (Hr & He & _).
  rewrite Hr. rewrite He in Herr. injection Herr as Herr. f_equal.
  unfold taskOutcome in *.
  destruct (runWriter_cases (writer w (Z.of_nat k)) (makeConfig options (Z.of_nat k))
              zeroResult None) as [(Hnone & _) | (what' & _ & Hsame & _)];
    [congruence | exact Hsame].
Qed.

Lemma failed_task_result_untouched_witness :
  results (finalSlots (main Examples.faulty [1; 0; 2]%nat
                         ["prog"; "--files"; "3"; "--messages"; "2"])) !! 1%nat
  = Some zeroResult.
Proof.
  apply (failed_task_result_untouched Examples.faulty [1; 0; 2]%nat
           ["prog"; "--files"; "3"; "--messages"; "2"]
           {| fileCount := 3; messagesPerFile := 2; queueSize := 10000;
              uncompressedBufferSize := 2097152; logContainerSize := 131072;
              compressionThreads := 4; outputDirectory := "blf_multi_writer_logs" |}
           1%nat "unable to open output file 'blf_multi_writer_logs/can_channel_2.blf'").
  - reflexivity.
  - reflexivity.
  - apply perm_swap.
  - reflexivity.
Defined.



(** ** Claims about the frames *)

(** The [i]-th frame a task hands to the library is [makeMessage] at
    sequence number [i], whatever the library and the clock do. *)
Lemma written_frame b config result error i m :
  framesWritten (runWriter b config result error).1.1 !! i = Some m ->
  m = makeMessage (index config) (Z.of_nat i) /\
  (i < Z.to_nat (wMessagesPerFile config))%nat.
Proof.
  rewrite runWriter_calls.
  destruct (writerBody_frames b config) as (k & Hk & -> & _).
  rewrite list_lookup_fmap. intros H.
  destruct (seq 0 k !! i) as [j |] eqn:Hj; [| discriminate].
  apply lookup_seq in Hj as [-> Hi]. injection H as <-.
  split; [reflexivity | lia].
Qed.

Lemma completed_frames b config result :
  (runWriter b config result None).2 = None ->
  framesWritten (runWriter b config result None).1.1
  = (fun j => makeMessage (index config) (Z.of_nat j))
      <$> seq 0 (Z.to_nat (wMessagesPerFile config)).
Proof.
  intros Hnone. rewrite runWriter_calls.
  destruct (writerBody_frames b config) as (k & _ & -> & Hall).
  destruct (runWriter_cases b config result None)
    as [(_ & _ & written & Hdone) | (what & Hsome & _)]; [| congruence].
  rewrite (Hall written Hdone). reflexivity.
Qed.

(** C6: the frames a task writes do not depend on the library's answers
    or on the clock: two runs of the same configuration write the same
    frame at every position both reach, and the same list of
    [messagesPerFile] frames when both complete; the frame with sequence
    number [i] has timestamp [i] and payload byte [(i + k) mod 256] at
    offset [k]. *)
Theorem frames_deterministic (b1 b2 : WriterBehaviour) (config : WriterConfig)
    (result1 result2 : WriterResult) :
  0 <= wMessagesPerFile config < 2 ^ 64 ->
  let run1 := runWriter b1 config result1 None in
  let run2 := runWriter b2 config result2 None in
  (forall i m1 m2,
     framesWritten run1.1.1 !! i = Some m1 ->
     framesWritten run2.1.1 !! i = Some m2 -> m1 = m2) /\
  (forall i m,
     framesWritten run1.1.1 !! i = Some m ->
     CanMessage.objectTimeStamp m = Z.of_nat i /\
     forall k, (k < 8)%nat ->
       CanMessage.data m !! k = Some ((Z.of_nat i + Z.of_nat k) mod 256)) /\
  (run1.2 = None -> run2.2 = None ->
   framesWritten run1.1.1 = framesWritten run2.1.1 /\
   length (framesWritten run1.1.1) = Z.to_nat (wMessagesPerFile config)).
Proof.
  intros HM run1 run2. split; [| split].
  - intros i m1 m2 H1 H2.
    apply written_frame in H1 as [-> _]. apply written_frame in H2 as [-> _].
    reflexivity.
  - intros i m H. apply written_frame in H as [-> Hi]. split.
    + cbn [makeMessage CanMessage.objectTimeStamp].
      apply to_unsigned_id. lia.
    + intros k Hk. rewrite makeMessage_data, list_lookup_fmap.
      rewrite (lookup_seq_lt 0 8 k Hk). reflexivity.
  - intros Hnone1 Hnone2. subst run1 run2.
    rewrite !completed_frames by assumption.
    split; [reflexivity |]. rewrite length_fmap, length_seq. reflexivity.
Qed.

Lemma frames_deterministic_witness :
  CanMessage.objectTimeStamp (makeMessage 0 1) = 1 /\
  CanMessage.data (makeMessage 0 1) !! 2%nat = Some 3.
Proof.
  destruct (frames_deterministic Examples.healthy Examples.fullDisk
              {| index := 0; wMessagesPerFile := 3; wQueueSize := 10;
                 wUncompressedBufferSize := 4096; wLogContainerSize := 4096;
                 wCompressionThreads := 1; wOutputDirectory := "out" |}
              zeroResult zeroResult ltac:(simpl; lia)) as (_ & Hshape & _).
  destruct (Hshape 1%nat (makeMessage 0 1) eq_refl) as [Htime Hdata].
  split; [exact Htime | exact (Hdata 2%nat ltac:(lia))].
Defined.

(** C7: the identifier of every frame lies between 0x100 and 0x7FF and
    depends on the sequence number with period 0x700: the frame a task
    writes at position [i] has identifier [0x100 + i mod 0x700], and the
    frames at positions [i] and [i + 0x700] carry the same identifier. *)
Theorem frame_id_bounded_and_periodic (b : WriterBehaviour) (config : WriterConfig)
    (result : WriterResult) (error : exception_ptr) :
  (forall index i,
     256 <= CanMessage.id (makeMessage index i) <= 2047 /\
     CanMessage.id (makeMessage index (i + 1792)) = CanMessage.id (makeMessage index i)) /\
  (forall i m,
     framesWritten (runWriter b config result error).1.1 !! i = Some m ->
     256 <= CanMessage.id m <= 2047 /\
     CanMessage.id m = 256 + Z.of_nat i mod 1792) /\
  (forall i m m',
     framesWritten (runWriter b config result error).1.1 !! i = Some m ->
     framesWritten (runWriter b config result error).1.1 !! (i + 1792)%nat = Some m' ->
     CanMessage.id m' = CanMessage.id m).
Proof.
  split; [| split].
  - intros index i. split; [apply makeMessage_id_range | apply makeMessage_id_period].
  - intros i m H. apply written_frame in H as [-> _].
    split; [apply makeMessage_id_range |].
    cbn [makeMessage CanMessage.id].
    pose proof (Z.mod_pos_bound (Z.of_nat i) 1792 ltac:(lia)).
    apply to_unsigned_id. lia.
  - intros i m m' H H'.
    apply written_frame in H as [-> _]. apply written_frame in H' as [-> _].
    rewrite Nat2Z.inj_add. apply makeMessage_id_period.
Qed.

Lemma frame_id_bounded_and_periodic_witness :
  256 <= CanMessage.id (makeMessage 0 2) <= 2047 /\
  CanMessage.id (makeMessage 0 2) = 256 + Z.of_nat 2 mod 1792.
Proof.
  destruct (frame_id_bounded_and_periodic Examples.healthy
              {| index := 0; wMessagesPerFile := 3; wQueueSize := 10;
                 wUncompressedBufferSize := 4096; wLogContainerSize := 4096;
                 wCompressionThreads := 1; wOutputDirectory := "out" |}
              zeroResult None) as (_ & Hwritten & _).
  exact (Hwritten 2%nat (makeMessage 0 2) eq_refl).
Defined.

(** ** Claims about the report and the output files *)


Lemma clampBuffer_keeps o :
  fileCount (clampBuffer o) = fileCount o /\
  messagesPerFile (clampBuffer o) = messagesPerFile o /\
  queueSize (clampBuffer o) = queueSize o /\
  outputDirectory (clampBuffer o) = outputDirectory o.
Proof. unfold clampBuffer. case_match; auto. Qed.










(** C8: each task opens exactly one path, [fileName] of its
    configuration, which is the output directory followed by
    [/can_channel_<index+1>.blf]; with 3 files and output directory
    [out] the three tasks open [out/can_channel_1.blf],
    [out/can_channel_2.blf] and [out/can_channel_3.blf]. *)
Theorem output_paths (w : World) (schedule : list nat) (argv0 : string) :
  (forall b config result error,
     pathsOpened (runWriter b config result error).1.1 = [fileName config]) /\
  (forall options i, 0 <= i < 2 ^ 64 - 1 ->
     fileName (makeConfig options i)
     = outputDirectory options +:+ "/can_channel_" +:+ pretty (i + 1) +:+ ".blf") /\
  (ensureDirectoryExists w "out" = true ->
   schedule ≡ₚ seq 0 3 ->
   pathsOpened <$>
     calls (finalSlots
              (main w schedule
                 [argv0; "--files"; "3"; "--messages"; "100"; "--queue-size"; "10";
                  "--output-dir"; "out"]))
   = [["out/can_channel_1.blf"]; ["out/can_channel_2.blf"]; ["out/can_channel_3.blf"]]).
Proof.
  split; [| split].
  - intros b config result error. rewrite runWriter_calls. apply writerBody_paths.
  - intros options i Hi. unfold fileName. cbn [makeConfig index wOutputDirectory].
    unfold Int.to_size_t. rewrite to_unsigned_id by lia. reflexivity.
  - intros Hdir Hperm.
    set (argv := [argv0; "--files"; "3"; "--messages"; "100"; "--queue-size"; "10";
                  "--output-dir"; "out"]).
    set (parsed := set_outputDirectory "out" (set_queueSize 10 (set_messagesPerFile 100
                     (set_fileCount 3 (initialOptions (libraryDefaults w)))))).
    assert (Hparse : parseCommandLine (libraryDefaults w) argv
                     = Returned (clampBuffer parsed)) by reflexivity.
    destruct (clampBuffer_keeps parsed) as (HF & _ & _ & HD).
    cbn in HF, HD.
    assert (Hdir' : ensureDirectoryExists w (outputDirectory (clampBuffer parsed)) = true)
      by (rewrite HD; exact Hdir).
    assert (Hperm' : schedule ≡ₚ seq 0 (Z.to_nat (fileCount (clampBuffer parsed))))
      by (rewrite HF; exact Hperm).
    pose proof (main_slots_wf w schedule argv _ Hparse Hdir') as Hwf.
    pose proof (calls_length _ _ Hwf) as Hlen. rewrite HF in Hlen.
    assert (Hk : forall k, (k < 3)%nat ->
              (pathsOpened <$> calls (finalSlots (main w schedule argv))) !! k
              = Some [fileName (makeConfig (clampBuffer parsed) (Z.of_nat k))]).
    { intros k Hk. rewrite list_lookup_fmap.
      destruct (main_slots w schedule argv _ k Hparse Hdir' Hperm') as (_ & _ & ->);
        [rewrite HF; exact Hk |].
      cbn [fmap option_fmap option_map]. f_equal. unfold taskOutcome.
      rewrite runWriter_calls. apply writerBody_paths. }
    destruct (calls (finalSlots (main w schedule argv)))
      as [| c0 [| c1 [| c2 [| c3 rest]]]]; try discriminate.
    pose proof (Hk 0%nat ltac:(lia)) as H0. pose proof (Hk 1%nat ltac:(lia)) as H1.
    pose proof (Hk 2%nat ltac:(lia)) as H2.
    cbn in H0, H1, H2. unfold fileName in H0, H1, H2.
    cbn [makeConfig index wOutputDirectory] in H0, H1, H2.
    rewrite HD in H0, H1, H2.
    injection H0 as H0. injection H1 as H1. injection H2 as H2.
    cbn [fmap list_fmap]. rewrite H0, H1, H2. reflexivity.
Qed.

Lemma output_paths_witness :
  pathsOpened <$>
    calls (finalSlots
             (main Examples.faulty [1; 0; 2]%nat
                ["prog"; "--files"; "3"; "--messages"; "100"; "--queue-size"; "10";
                 "--output-dir"; "out"]))
  = [["out/can_channel_1.blf"]; ["out/can_channel_2.blf"]; ["out/can_channel_3.blf"]].
Proof.
  destruct (output_paths Examples.faulty [1; 0; 2]%nat "prog") as (_ & _ & Hthree).
  apply Hthree; [reflexivity | apply perm_swap].
Defined.

(** * Further properties of the code *)

(** ** Decimal texts and the numeric parsers *)

Lemma digitValue_pretty_N_char d :
  (d < 10)%N -> CStdlib.digitValue (pretty_N_char d) = Some (Z.of_N d).
Proof.
  intros Hd.
  assert (d = 0 ∨ d = 1 ∨ d = 2 ∨ d = 3 ∨ d = 4 ∨ d = 5 ∨ d = 6 ∨ d = 7
          ∨ d = 8 ∨ d = 9)%N as Hcases by lia.
  repeat (destruct Hcases as [-> | Hcases]; [reflexivity |]). subst. reflexivity.
Qed.

Lemma pretty_N_char_plain d :
  CStdlib.isspace (pretty_N_char d) = false /\
  pretty_N_char d <> "-"%char /\ pretty_N_char d <> "+"%char.
Proof. unfold pretty_N_char. repeat case_match; repeat split; discriminate || reflexivity. Qed.

Lemma scanDigits_stop acc tail :
  stopsScan tail -> CStdlib.scanDigits acc tail = (acc, tail).
Proof. destruct tail as [| c rest]; cbn; [reflexivity |]. intros ->. reflexivity. Qed.

(** Scanning the digits of [x] multiplies the accumulator by a power of
    ten and adds [x]. *)
Lemma scanDigits_pretty_N_go x :
  exists k, 0 <= k /\ forall acc s,
    CStdlib.scanDigits acc (pretty_N_go x s)
    = CStdlib.scanDigits (acc * 10 ^ k + Z.of_N x) s.
Proof.
  induction (N.lt_wf_0 x) as [x _ IH].
  destruct (N.eq_dec x 0%N) as [-> | Hpos].
  - exists 0. split; [lia |]. intros acc s. rewrite pretty_N_go_0. f_equal. lia.
  - destruct (IH (x `div` 10)%N) as (k & Hk & Hscan); [apply N.div_lt; lia |].
    exists (k + 1). split; [lia |]. intros acc s.
    rewrite pretty_N_go_step by lia. rewrite Hscan. cbn [CStdlib.scanDigits].
    rewrite digitValue_pretty_N_char by (apply N.mod_lt; lia). f_equal.
    rewrite Z.pow_add_r by lia.
    pose proof (N.div_mod x 10 ltac:(lia)) as Hdm.
    apply (f_equal Z.of_N) in Hdm. rewrite N2Z.inj_add, N2Z.inj_mul in Hdm.
    change (Z.of_N 10) with 10 in Hdm. lia.
Qed.

Lemma pretty_N_go_head x s :
  (0 < x)%N ->
  exists d rest, (d < 10)%N /\ pretty_N_go x s = String (pretty_N_char d) rest.
Proof.
  revert s. induction (N.lt_wf_0 x) as [x _ IH]; intros s Hpos.
  rewrite pretty_N_go_step by exact Hpos.
  destruct (N.eq_dec (x `div` 10)%N 0%N) as [-> | Hdiv].
  - rewrite pretty_N_go_0. eexists _, _. split; [| reflexivity]. apply N.mod_lt. lia.
  - apply IH.
    + apply N.div_lt; [exact Hpos | reflexivity].
    + apply N.neq_0_lt_0. exact Hdiv.
Qed.

Lemma pretty_N_go_append x s t :
  pretty_N_go x s +:+ t = pretty_N_go x (s +:+ t).
Proof.
  revert s. induction (N.lt_wf_0 x) as [x _ IH]; intros s.
  destruct (N.eq_dec x 0%N) as [-> | Hpos]; [rewrite !pretty_N_go_0; reflexivity |].
  rewrite (pretty_N_go_step x s), (pretty_N_go_step x (s +:+ t)) by lia.
  rewrite IH by (apply N.div_lt; lia). reflexivity.
Qed.

(** The digits of a non-negative number, as the scan sees them: a text
    that starts with a digit and scans to the number. *)
Lemma decimal_digits n tail :
  0 <= n -> stopsScan tail ->
  exists d rest,
    (d < 10)%N /\ pretty n +:+ tail = String (pretty_N_char d) rest /\
    CStdlib.scanDigits 0 (pretty n +:+ tail) = (n, tail).
Proof.
  intros Hn Hstop. destruct n as [| p | p]; [| | lia].
  - exists 0%N, tail. split; [lia |]. split; [reflexivity |].
    change (pretty 0 +:+ tail) with (String "0" tail).
    cbn [CStdlib.scanDigits]. change (CStdlib.digitValue "0") with (Some 0).
    apply scanDigits_stop, Hstop.
  - change (pretty (Z.pos p)) with (pretty_N_go (N.pos p) "").
    rewrite pretty_N_go_append. change ("" +:+ tail) with tail.
    destruct (pretty_N_go_head (N.pos p) tail) as (d & rest & Hd & Hhead); [lia |].
    exists d, rest. split; [exact Hd |]. split; [exact Hhead |].
    destruct (scanDigits_pretty_N_go (N.pos p)) as (k & _ & Hscan).
    rewrite Hscan. rewrite scanDigits_stop by exact Hstop. f_equal.
Qed.

Lemma skipSpace_digit d rest :
  CStdlib.skipSpace (String (pretty_N_char d) rest) = String (pretty_N_char d) rest.
Proof.
  cbn [CStdlib.skipSpace]. destruct (pretty_N_char_plain d) as (-> & _). reflexivity.
Qed.

Lemma scanSign_digit d rest :
  CStdlib.scanSign (String (pretty_N_char d) rest) = (false, String (pretty_N_char d) rest).
Proof. unfold pretty_N_char. repeat case_match; reflexivity. Qed.

Lemma scanInteger_decimal n tail :
  0 <= n -> stopsScan tail ->
  CStdlib.scanInteger (pretty n +:+ tail) = Some (false, n, tail).
Proof.
  intros Hn Hstop.
  destruct (decimal_digits n tail Hn Hstop) as (d & rest & Hd & Hhead & Hscan).
  unfold CStdlib.scanInteger. rewrite Hhead in *.
  rewrite skipSpace_digit, scanSign_digit.
  rewrite digitValue_pretty_N_char by exact Hd. rewrite Hscan. reflexivity.
Qed.

Lemma scanInteger_minus_decimal n tail :
  0 <= n -> stopsScan tail ->
  CStdlib.scanInteger ("-" +:+ pretty n +:+ tail) = Some (true, n, tail).
Proof.
  intros Hn Hstop.
  destruct (decimal_digits n tail Hn Hstop) as (d & rest & Hd & Hhead & Hscan).
  unfold CStdlib.scanInteger. rewrite Hhead in *.
  change ("-" +:+ String (pretty_N_char d) rest)
    with (String "-" (String (pretty_N_char d) rest)).
  cbn [CStdlib.skipSpace]. change (CStdlib.isspace "-") with false.
  cbn [CStdlib.scanSign].
  rewrite digitValue_pretty_N_char by exact Hd. rewrite Hscan. reflexivity.
Qed.

Lemma append_empty (s : string) : s +:+ "" = s.
Proof.
  induction s as [| c s IH]; [reflexivity |].
  change (String c s +:+ "") with (String c (s +:+ "")). rewrite IH. reflexivity.
Qed.

Lemma pretty_negative n : 0 < n -> pretty (- n) = "-" +:+ pretty n.
Proof. intros Hn. destruct n as [| p | p]; [lia | reflexivity | lia]. Qed.

Lemma strtoull_decimal n tail :
  0 <= n -> stopsScan tail ->
  CStdlib.strtoull (pretty n +:+ tail)
  = (if 2 ^ 64 - 1 <? n then 2 ^ 64 - 1 else n, tail).
Proof.
  intros Hn Hstop. unfold CStdlib.strtoull.
  rewrite scanInteger_decimal by assumption.
  change Int.ULLONG_MAX with (2 ^ 64 - 1).
  destruct (Z.ltb_spec (2 ^ 64 - 1) n); [reflexivity |].
  rewrite to_unsigned_id by lia. reflexivity.
Qed.

Lemma strtoull_minus_decimal n tail :
  0 < n -> stopsScan tail ->
  CStdlib.strtoull ("-" +:+ pretty n +:+ tail)
  = (if 2 ^ 64 - 1 <? n then 2 ^ 64 - 1 else 2 ^ 64 - n, tail).
Proof.
  intros Hn Hstop. unfold CStdlib.strtoull.
  rewrite scanInteger_minus_decimal by (assumption || lia).
  change Int.ULLONG_MAX with (2 ^ 64 - 1).
  destruct (Z.ltb_spec (2 ^ 64 - 1) n); [reflexivity |].
  f_equal. unfold Int.to_unsigned.
  replace (- n) with (2 ^ 64 - n + (-1) * 2 ^ 64) by lia.
  rewrite Z.mod_add by lia. apply Z.mod_small. lia.
Qed.

Lemma strtoll_decimal n tail :
  0 <= n -> stopsScan tail ->
  CStdlib.strtoll (pretty n +:+ tail)
  = (if 2 ^ 63 - 1 <? n then 2 ^ 63 - 1 else n, tail).
Proof.
  intros Hn Hstop. unfold CStdlib.strtoll.
  rewrite scanInteger_decimal by assumption.
  change Int.LLONG_MAX with (2 ^ 63 - 1). change Int.LLONG_MIN with (- 2 ^ 63).
  cbn zeta. destruct (Z.ltb_spec n (- 2 ^ 63)); [lia |].
  destruct (Z.ltb_spec (2 ^ 63 - 1) n); reflexivity.
Qed.

Lemma strtoll_minus_decimal n tail :
  0 < n -> stopsScan tail ->
  CStdlib.strtoll ("-" +:+ pretty n +:+ tail)
  = (if 2 ^ 63 <? n then - 2 ^ 63 else - n, tail).
Proof.
  intros Hn Hstop. unfold CStdlib.strtoll.
  rewrite scanInteger_minus_decimal by (assumption || lia).
  change Int.LLONG_MAX with (2 ^ 63 - 1). change Int.LLONG_MIN with (- 2 ^ 63).
  cbn zeta. destruct (Z.ltb_spec (- n) (- 2 ^ 63)), (Z.ltb_spec (2 ^ 63) n);
    try lia; [reflexivity |].
  destruct (Z.ltb_spec (2 ^ 63 - 1) (- n)); [lia | reflexivity].
Qed.

(** X1: [parseSizeT] on decimal texts.  The decimal rendering of a
    [size_t] value parses back to that value; a number of 2^64 or more is
    accepted and saturates at 2^64 - 1; a negative number [-n] is accepted
    and wraps to 2^64 - n. *)
Theorem parseSizeT_decimal (n : Z) :
  (0 <= n < 2 ^ 64 -> parseSizeT (pretty n) = Returned n) /\
  (2 ^ 64 <= n -> parseSizeT (pretty n) = Returned (2 ^ 64 - 1)) /\
  (0 < n < 2 ^ 64 -> parseSizeT (pretty (- n)) = Returned (2 ^ 64 - n)).
Proof.
  split; [| split]; intros Hn.
  - unfold parseSizeT. rewrite <- (append_empty (pretty n)).
    rewrite strtoull_decimal by (exact I || lia).
    destruct (Z.ltb_spec (2 ^ 64 - 1) n); [lia |]. cbn [String.eqb negb].
    unfold Int.to_size_t. rewrite to_unsigned_id by lia. reflexivity.
  - unfold parseSizeT. rewrite <- (append_empty (pretty n)).
    rewrite strtoull_decimal by (exact I || lia).
    destruct (Z.ltb_spec (2 ^ 64 - 1) n); [| lia]. reflexivity.
  - unfold parseSizeT. rewrite pretty_negative by lia.
    rewrite <- (append_empty (pretty n)).
    rewrite strtoull_minus_decimal by (exact I || lia).
    destruct (Z.ltb_spec (2 ^ 64 - 1) n); [lia |]. cbn [String.eqb negb].
    unfold Int.to_size_t. rewrite to_unsigned_id by lia. reflexivity.
Qed.

Lemma parseSizeT_decimal_witness :
  parseSizeT "300" = Returned 300 /\
  parseSizeT "18446744073709551616" = Returned (2 ^ 64 - 1) /\
  parseSizeT "-2" = Returned (2 ^ 64 - 2).
Proof.
  split; [| split].
  - apply (proj1 (parseSizeT_decimal 300)). lia.
  - apply (proj1 (proj2 (parseSizeT_decimal 18446744073709551616))). lia.
  - apply (proj2 (proj2 (parseSizeT_decimal 2))). lia.
Defined.

(** X2: [parseUint32] on decimal texts.  The decimal rendering of a
    [uint32_t] value parses back to that value; a number of 2^32 or more
    is rejected as out of range, and so is [-n] for n up to 2^64 - 2^32. *)
Theorem parseUint32_decimal (n : Z) :
  (0 <= n < 2 ^ 32 -> parseUint32 (pretty n) = Returned n) /\
  (2 ^ 32 <= n ->
   parseUint32 (pretty n) = Thrown "numeric argument exceeds uint32_t range") /\
  (0 < n <= 2 ^ 64 - 2 ^ 32 ->
   parseUint32 (pretty (- n)) = Thrown "numeric argument exceeds uint32_t range").
Proof.
  split; [| split]; intros Hn.
  - unfold parseUint32, CStdlib.strtoul. rewrite <- (append_empty (pretty n)).
    rewrite strtoull_decimal by (exact I || lia).
    destruct (Z.ltb_spec (2 ^ 64 - 1) n); [lia |]. cbn [String.eqb negb].
    destruct (Z.ltb_spec 4294967295 n); [lia |].
    unfold Int.to_uint32. rewrite to_unsigned_id by lia. reflexivity.
  - unfold parseUint32, CStdlib.strtoul. rewrite <- (append_empty (pretty n)).
    rewrite strtoull_decimal by (exact I || lia).
    destruct (Z.ltb_spec (2 ^ 64 - 1) n); cbn [String.eqb negb]; [reflexivity |].
    destruct (Z.ltb_spec 4294967295 n); [reflexivity | lia].
  - unfold parseUint32, CStdlib.strtoul. rewrite pretty_negative by lia.
    rewrite <- (append_empty (pretty n)).
    rewrite strtoull_minus_decimal by (exact I || lia).
    destruct (Z.ltb_spec (2 ^ 64 - 1) n); [lia |]. cbn [String.eqb negb].
    destruct (Z.ltb_spec 4294967295 (2 ^ 64 - n)); [reflexivity | lia].
Qed.

Lemma parseUint32_decimal_witness :
  parseUint32 "10000" = Returned 10000 /\
  parseUint32 "4294967296" = Thrown "numeric argument exceeds uint32_t range" /\
  parseUint32 "-5" = Thrown "numeric argument exceeds uint32_t range".
Proof.
  split; [| split].
  - apply (proj1 (parseUint32_decimal 10000)). lia.
  - apply (proj1 (proj2 (parseUint32_decimal 4294967296))). lia.
  - apply (proj2 (proj2 (parseUint32_decimal 5))). lia.
Defined.

(** X3: [parseStreamSize] on decimal texts.  The decimal rendering of a
    positive [streamsize] value parses back to that value; zero and every
    negative number are rejected; a number of 2^63 or more is accepted and
    saturates at 2^63 - 1. *)
Theorem parseStreamSize_decimal (n : Z) :
  (1 <= n < 2 ^ 63 -> parseStreamSize (pretty n) = Returned n) /\
  (n <= 0 -> parseStreamSize (pretty n) = Thrown "buffer sizes must be positive") /\
  (2 ^ 63 <= n -> parseStreamSize (pretty n) = Returned (2 ^ 63 - 1)).
Proof.
  split; [| split]; intros Hn.
  - unfold parseStreamSize. rewrite <- (append_empty (pretty n)).
    rewrite strtoll_decimal by (exact I || lia).
    destruct (Z.ltb_spec (2 ^ 63 - 1) n); [lia |]. cbn [String.eqb negb].
    destruct (Z.leb_spec n 0); [lia |]. rewrite to_streamsize_id by lia. reflexivity.
  - destruct (Z.eq_dec n 0) as [-> | Hne]; [reflexivity |].
    replace n with (- (- n)) by lia. unfold parseStreamSize.
    rewrite pretty_negative by lia. rewrite <- (append_empty (pretty (- n))).
    rewrite strtoll_minus_decimal by (exact I || lia).
    destruct (Z.ltb_spec (2 ^ 63) (- n)); cbn [String.eqb negb]; [reflexivity |].
    destruct (Z.leb_spec (- - n) 0); [reflexivity | lia].
  - unfold parseStreamSize. rewrite <- (append_empty (pretty n)).
    rewrite strtoll_decimal by (exact I || lia).
    destruct (Z.ltb_spec (2 ^ 63 - 1) n); [| lia]. reflexivity.
Qed.

Lemma parseStreamSize_decimal_witness :
  parseStreamSize "4096" = Returned 4096 /\
  parseStreamSize "-7" = Thrown "buffer sizes must be positive" /\
  parseStreamSize "9223372036854775808" = Returned (2 ^ 63 - 1).
Proof.
  split; [| split].
  - apply (proj1 (parseStreamSize_decimal 4096)). lia.
  - apply (proj1 (proj2 (parseStreamSize_decimal (-7)))). lia.
  - apply (proj2 (proj2 (parseStreamSize_decimal 9223372036854775808))). lia.
Defined.

(** X4: text after the digits.  A decimal number followed by any text that
    does not start with a digit (a letter, a dot, a blank, ...) is
    rejected by all three parsers as unparsable. *)
Theorem trailing_text_rejected (n : Z) (c : ascii) (rest : string) :
  0 <= n -> CStdlib.digitValue c = None ->
  parseSizeT (pretty n +:+ String c rest) = Thrown "unable to parse numeric argument" /\
  parseUint32 (pretty n +:+ String c rest) = Thrown "unable to parse numeric argument" /\
  parseStreamSize (pretty n +:+ String c rest) = Thrown "unable to parse numeric argument".
Proof.
  intros Hn Hc. unfold parseSizeT, parseUint32, parseStreamSize, CStdlib.strtoul.
  rewrite strtoull_decimal, strtoll_decimal by (exact Hc || lia).
  repeat split; reflexivity.
Qed.

Lemma trailing_text_rejected_witness :
  parseSizeT "12abc" = Thrown "unable to parse numeric argument" /\
  parseUint32 "12abc" = Thrown "unable to parse numeric argument" /\
  parseStreamSize "12abc" = Thrown "unable to parse numeric argument".
Proof.
  apply (trailing_text_rejected 12 "a" "bc"); [lia | reflexivity].
Defined.

(** X5: whatever the text, a value that a numeric parser returns fits the
    type it is stored in: [parseSizeT] gives a 64-bit unsigned value,
    [parseUint32] a 32-bit unsigned value and [parseStreamSize] a
    positive 64-bit signed value. *)
Theorem numeric_parsers_in_range (text : string) (value : Z) :
  (parseSizeT text = Returned value -> 0 <= value < 2 ^ 64) /\
  (parseUint32 text = Returned value -> 0 <= value < 2 ^ 32) /\
  (parseStreamSize text = Returned value -> 1 <= value < 2 ^ 63).
Proof.
  split; [| split].
  - apply parseSizeT_range.
  - apply parseUint32_range.
  - apply parseStreamSize_range.
Qed.

Lemma numeric_parsers_in_range_witness :
  0 <= 2 ^ 64 - 1 < 2 ^ 64 /\ 0 <= 7 < 2 ^ 32 /\ 1 <= 2 ^ 63 - 1 < 2 ^ 63.
Proof.
  split; [| split].
  - apply (proj1 (numeric_parsers_in_range "-1" (2 ^ 64 - 1))). reflexivity.
  - apply (proj1 (proj2 (numeric_parsers_in_range " +7" 7))). reflexivity.
  - apply (proj2 (proj2 (numeric_parsers_in_range "99999999999999999999" (2 ^ 63 - 1)))).
    reflexivity.
Defined.

(** ** Rejected command lines *)

(** A run that ends with one error line and has done nothing else. *)
Lemma main_parse_error w schedule argv what :
  parseCommandLine (libraryDefaults w) argv = Thrown what ->
  main w schedule argv
  = {| events := [Stderr ("Error: " +:+ what)];
       exitStatus := EXIT_FAILURE;
       finalSlots := initialSlots 0 |}.
Proof. intros H. unfold main. rewrite H. reflexivity. Qed.

Lemma parseCommandLine_after_prefix defaults argv0 pre o1 rest what :
  parseArguments argv0 (initialOptions defaults) pre = Returned o1 ->
  parseArguments argv0 o1 rest = Thrown what ->
  parseCommandLine defaults (argv0 :: pre ++ rest) = Thrown what.
Proof.
  intros Hpre Hrest. unfold parseCommandLine. cbn [hd tl].
  rewrite (parseArguments_app _ _ _ _ _ Hpre), Hrest. reflexivity.
Qed.

Lemma unknown_flag_tests argument :
  argument ∉ knownFlags ->
  String.eqb argument "-h" = false /\ String.eqb argument "--help" = false /\
  String.eqb argument "--files" = false /\ String.eqb argument "--messages" = false /\
  String.eqb argument "--queue-size" = false /\
  String.eqb argument "--uncompressed-bytes" = false /\
  String.eqb argument "--log-container-bytes" = false /\
  String.eqb argument "--compression-threads" = false /\
  String.eqb argument "--output-dir" = false.
Proof.
  unfold knownFlags, valueFlags. intros H.
  repeat (apply not_elem_of_cons in H as [? H]).
  repeat split; apply String.eqb_neq; assumption.
Qed.

(** X6: an argument in flag position that is none of the known flags makes
    the run fail with one error line that names the argument; no
    directory is created and no task is launched, whatever follows. *)
Theorem unknown_argument_rejected (w : World) (schedule : list nat)
    (argv0 : string) (pre : list string) (o1 : CommandLineOptions)
    (argument : string) (post : list string) :
  parseArguments argv0 (initialOptions (libraryDefaults w)) pre = Returned o1 ->
  argument ∉ knownFlags ->
  main w schedule (argv0 :: pre ++ argument :: post)
  = {| events := [Stderr ("Error: Unknown argument '" +:+ argument
                            +:+ "'. Pass --help for usage.")];
       exitStatus := EXIT_FAILURE;
       finalSlots := initialSlots 0 |}.
Proof.
  intros Hpre Hunknown. apply main_parse_error.
  apply (parseCommandLine_after_prefix _ _ _ _ _ _ Hpre).
  destruct (unknown_flag_tests argument Hunknown)
    as (H1 & H2 & H3 & H4 & H5 & H6 & H7 & H8 & H9).
  cbn [parseArguments]. rewrite H1, H2, H3, H4, H5, H6, H7, H8, H9. reflexivity.
Qed.

Lemma unknown_argument_rejected_witness :
  main Examples.good [] ["prog"; "--files"; "3"; "--bogus"; "--help"]
  = {| events := [Stderr "Error: Unknown argument '--bogus'. Pass --help for usage."];
       exitStatus := EXIT_FAILURE;
       finalSlots := initialSlots 0 |}.
Proof.
  apply (unknown_argument_rejected Examples.good [] "prog" ["--files"; "3"]
           (set_fileCount 3 (initialOptions Examples.defaults)) "--bogus" ["--help"]).
  - reflexivity.
  - unfold knownFlags, valueFlags. repeat (apply not_elem_of_cons; split; [discriminate |]).
    apply not_elem_of_nil.
Defined.

(** X7: a flag that takes a value and stands last on the command line
    makes the run fail with "missing value for argument"; nothing else is
    done. *)
Theorem missing_value_rejected (w : World) (schedule : list nat)
    (argv0 : string) (pre : list string) (o1 : CommandLineOptions) (flag : string) :
  parseArguments argv0 (initialOptions (libraryDefaults w)) pre = Returned o1 ->
  flag ∈ valueFlags ->
  main w schedule (argv0 :: pre ++ [flag])
  = {| events := [Stderr "Error: missing value for argument"];
       exitStatus := EXIT_FAILURE;
       finalSlots := initialSlots 0 |}.
Proof.
  intros Hpre Hflag. apply main_parse_error.
  apply (parseCommandLine_after_prefix _ _ _ _ _ _ Hpre).
  unfold valueFlags in Hflag.
  repeat (apply elem_of_cons in Hflag as [-> | Hflag]); [reflexivity .. |].
  inversion Hflag.
Qed.

Lemma missing_value_rejected_witness :
  main Examples.good [] ["prog"; "--messages"; "5"; "--output-dir"]
  = {| events := [Stderr "Error: missing value for argument"];
       exitStatus := EXIT_FAILURE;
       finalSlots := initialSlots 0 |}.
Proof.
  apply (missing_value_rejected Examples.good [] "prog" ["--messages"; "5"]
           (set_messagesPerFile 5 (initialOptions Examples.defaults)) "--output-dir").
  - reflexivity.
  - unfold valueFlags. repeat first [apply list_elem_of_here | apply list_elem_of_further].
Defined.

(** X8: a value that parses to zero after [--files], [--messages],
    [--queue-size] or [--compression-threads] makes the run fail with an
    error line that names the flag; nothing else is done. *)
Theorem zero_value_rejected (w : World) (schedule : list nat)
    (argv0 : string) (pre : list string) (o1 : CommandLineOptions)
    (flag text : string) (post : list string) :
  parseArguments argv0 (initialOptions (libraryDefaults w)) pre = Returned o1 ->
  ((flag = "--files" \/ flag = "--messages") /\ parseSizeT text = Returned 0) \/
  ((flag = "--queue-size" \/ flag = "--compression-threads") /\
   parseUint32 text = Returned 0) ->
  main w schedule (argv0 :: pre ++ flag :: text :: post)
  = {| events := [Stderr ("Error: " +:+ flag +:+ " requires a positive value")];
       exitStatus := EXIT_FAILURE;
       finalSlots := initialSlots 0 |}.
Proof.
  intros Hpre Hzero. apply main_parse_error.
  apply (parseCommandLine_after_prefix _ _ _ _ _ _ Hpre).
  destruct Hzero as [[[-> | ->] Hp] | [[-> | ->] Hp]];
    cbn [parseArguments requireValue]; simpl String.eqb; cbn [orb];
    rewrite Hp; reflexivity.
Qed.

Lemma zero_value_rejected_witness :
  main Examples.good [] ["prog"; "--queue-size"; "-0"; "--files"; "2"]
  = {| events := [Stderr "Error: --queue-size requires a positive value"];
       exitStatus := EXIT_FAILURE;
       finalSlots := initialSlots 0 |}.
Proof.
  apply (zero_value_rejected Examples.good [] "prog" []
           (initialOptions Examples.defaults) "--queue-size" "-0" ["--files"; "2"]).
  - reflexivity.
  - right. split; [left; reflexivity | reflexivity].
Defined.

(** X9: when the value of a numeric flag does not parse, the run fails
    with the parser's message as its one error line; nothing else is
    done. *)
Theorem bad_value_rejected (w : World) (schedule : list nat)
    (argv0 : string) (pre : list string) (o1 : CommandLineOptions)
    (flag text what : string) (post : list string) :
  parseArguments argv0 (initialOptions (libraryDefaults w)) pre = Returned o1 ->
  ((flag = "--files" \/ flag = "--messages") /\ parseSizeT text = Thrown what) \/
  ((flag = "--queue-size" \/ flag = "--log-container-bytes" \/
    flag = "--compression-threads") /\ parseUint32 text = Thrown what) \/
  (flag = "--uncompressed-bytes" /\ parseStreamSize text = Thrown what) ->
  main w schedule (argv0 :: pre ++ flag :: text :: post)
  = {| events := [Stderr ("Error: " +:+ what)];
       exitStatus := EXIT_FAILURE;
       finalSlots := initialSlots 0 |}.
Proof.
  intros Hpre Hbad. apply main_parse_error.
  apply (parseCommandLine_after_prefix _ _ _ _ _ _ Hpre).
  destruct Hbad as [[[-> | ->] Hp] | [[[-> | [-> | ->]] Hp] | [-> Hp]]];
    cbn [parseArguments requireValue]; simpl String.eqb; cbn [orb];
    rewrite Hp; reflexivity.
Qed.

Lemma bad_value_rejected_witness :
  main Examples.good [] ["prog"; "--uncompressed-bytes"; "0"]
  = {| events := [Stderr "Error: buffer sizes must be positive"];
       exitStatus := EXIT_FAILURE;
       finalSlots := initialSlots 0 |}.
Proof.
  apply (bad_value_rejected Examples.good [] "prog" []
           (initialOptions Examples.defaults) "--uncompressed-bytes" "0"
           "buffer sizes must be positive" []).
  - reflexivity.
  - right. right. split; reflexivity.
Defined.

(** ** Accepted command lines *)

Lemma Accepts_frame argument text o o1 :
  Accepts argument text o o1 ->
  (argument <> "--files" -> fileCount o1 = fileCount o) /\
  (argument <> "--messages" -> messagesPerFile o1 = messagesPerFile o) /\
  (argument <> "--queue-size" -> queueSize o1 = queueSize o) /\
  (argument <> "--uncompressed-bytes" ->
   uncompressedBufferSize o1 = uncompressedBufferSize o) /\
  (argument <> "--log-container-bytes" -> logContainerSize o1 = logContainerSize o) /\
  (argument <> "--compression-threads" ->
   compressionThreads o1 = compressionThreads o) /\
  (argument <> "--output-dir" -> outputDirectory o1 = outputDirectory o).
Proof. intros Hacc. destruct Hacc; repeat split; intros; cbn; congruence. Qed.

Lemma Parses_frame o args o' :
  Parses o args o' ->
  ("--files" ∉ args -> fileCount o' = fileCount o) /\
  ("--messages" ∉ args -> messagesPerFile o' = messagesPerFile o) /\
  ("--queue-size" ∉ args -> queueSize o' = queueSize o) /\
  ("--uncompressed-bytes" ∉ args ->
   uncompressedBufferSize o' = uncompressedBufferSize o) /\
  ("--log-container-bytes" ∉ args -> logContainerSize o' = logContainerSize o) /\
  ("--compression-threads" ∉ args -> compressionThreads o' = compressionThreads o) /\
  ("--output-dir" ∉ args -> outputDirectory o' = outputDirectory o).
Proof.
  induction 1 as [| o argument text o1 rest o' Hacc _ IH]; [repeat split; reflexivity |].
  destruct (Accepts_frame _ _ _ _ Hacc) as (A1 & A2 & A3 & A4 & A5 & A6 & A7).
  destruct IH as (I1 & I2 & I3 & I4 & I5 & I6 & I7).
  repeat split; intros Hnot;
    apply not_elem_of_cons in Hnot as [Hne Hnot];
    apply not_elem_of_cons in Hnot as [_ Hnot];
    [rewrite (I1 Hnot); apply A1 | rewrite (I2 Hnot); apply A2
    | rewrite (I3 Hnot); apply A3 | rewrite (I4 Hnot); apply A4
    | rewrite (I5 Hnot); apply A5 | rewrite (I6 Hnot); apply A6
    | rewrite (I7 Hnot); apply A7]; congruence.
Qed.

(** X10: an option whose flag does not occur on the command line keeps
    its default: 10 files, 200000 messages, queue size 10000, the
    library's container size and thread count, the directory
    [blf_multi_writer_logs]; with neither size flag the buffer is 16
    containers. *)
Theorem unmentioned_options_keep_defaults (defaults : LibraryDefaults)
    (argv : list string) (options : CommandLineOptions) :
  parseCommandLine defaults argv = Returned options ->
  ("--files" ∉ tl argv -> fileCount options = 10) /\
  ("--messages" ∉ tl argv -> messagesPerFile options = 200000) /\
  ("--queue-size" ∉ tl argv -> queueSize options = 10000) /\
  ("--log-container-bytes" ∉ tl argv ->
   logContainerSize options = defaultLogContainerSize defaults) /\
  ("--compression-threads" ∉ tl argv ->
   compressionThreads options = compressionThreadCount defaults) /\
  ("--output-dir" ∉ tl argv -> outputDirectory options = "blf_multi_writer_logs") /\
  (Int.is_uint32 (defaultLogContainerSize defaults) ->
   "--uncompressed-bytes" ∉ tl argv -> "--log-container-bytes" ∉ tl argv ->
   uncompressedBufferSize options = 16 * defaultLogContainerSize defaults).
Proof.
  intros Hparse. apply parseCommandLine_Returned in Hparse as (parsed & HP & ->).
  destruct (Parses_frame _ _ _ HP) as (I1 & I2 & I3 & I4 & I5 & I6 & I7).
  destruct (clampBuffer_keeps parsed) as (K1 & K2 & K3 & K4).
  repeat split.
  - intros H. rewrite K1. apply (I1 H).
  - intros H. rewrite K2. apply (I2 H).
  - intros H. rewrite K3. apply (I3 H).
  - intros H. unfold clampBuffer. case_match; cbn; apply (I5 H).
  - intros H. unfold clampBuffer. case_match; cbn; apply (I6 H).
  - intros H. rewrite K4. apply (I7 H).
  - unfold Int.is_uint32. intros Hd Hu Hl.
    specialize (I4 Hu). specialize (I5 Hl). cbn in I4, I5.
    rewrite (to_streamsize_id (defaultLogContainerSize defaults)) in I4 by lia.
    rewrite to_streamsize_id in I4 by lia.
    unfold clampBuffer. rewrite I5, I4, to_streamsize_id by lia.
    destruct (Z.ltb_spec (defaultLogContainerSize defaults * 16)
                (defaultLogContainerSize defaults)); cbn; lia.
Qed.

Lemma unmentioned_options_keep_defaults_witness :
  fileCount
    {| fileCount := 10; messagesPerFile := 7; queueSize := 10000;
       uncompressedBufferSize := 2097152; logContainerSize := 131072;
       compressionThreads := 4; outputDirectory := "blf_multi_writer_logs" |} = 10.
Proof.
  apply (proj1 (unmentioned_options_keep_defaults Examples.defaults
                  ["prog"; "--messages"; "7"] _ eq_refl)).
  repeat (apply not_elem_of_cons; split; [discriminate |]). apply not_elem_of_nil.
Defined.

(** X11: the fields of every configuration that [parseCommandLine]
    returns lie in the ranges of their types, with at least one file, one
    message per file and one queue entry; the thread count is at least 1
    when the library's default is. *)
Theorem returned_configuration_in_range (defaults : LibraryDefaults)
    (argv : list string) (options : CommandLineOptions) :
  Int.is_uint32 (defaultLogContainerSize defaults) ->
  Int.is_uint32 (compressionThreadCount defaults) ->
  parseCommandLine defaults argv = Returned options ->
  1 <= fileCount options < 2 ^ 64 /\
  1 <= messagesPerFile options < 2 ^ 64 /\
  1 <= queueSize options < 2 ^ 32 /\
  0 <= uncompressedBufferSize options < 2 ^ 63 /\
  0 <= logContainerSize options < 2 ^ 32 /\
  0 <= compressionThreads options < 2 ^ 32 /\
  (1 <= compressionThreadCount defaults -> 1 <= compressionThreads options).
Proof.
  intros HL HC Hparse.
  destruct (parseCommandLine_InRange defaults argv options HL HC Hparse)
    as [HF HM HQ HU HLc HCt].
  repeat split; try lia.
  intros Hdefault. apply parseCommandLine_Returned in Hparse as (parsed & HP & ->).
  assert (Hthreads : 1 <= compressionThreads parsed).
  { change (compressionThreadCount defaults)
      with (compressionThreads (initialOptions defaults)) in Hdefault.
    clear -HP Hdefault.
    induction HP as [| o argument text o1 rest o' Hacc _ IH]; [exact Hdefault |].
    apply IH. destruct Hacc as
      [text value o Hp Hv | text value o Hp Hv | text value o Hp Hv
      | text value o Hp | text value o Hp | text value o Hp Hv | text o];
      cbn; try exact Hdefault.
    apply parseUint32_range in Hp. lia. }
  unfold clampBuffer. case_match; cbn; exact Hthreads.
Qed.

Lemma returned_configuration_in_range_witness :
  1 <= 3 < 2 ^ 64 /\ 1 <= 200000 < 2 ^ 64 /\ 1 <= 10000 < 2 ^ 32 /\
  0 <= 2097152 < 2 ^ 63 /\ 0 <= 131072 < 2 ^ 32 /\ 0 <= 4 < 2 ^ 32.
Proof.
  destruct (returned_configuration_in_range Examples.defaults
              ["prog"; "--files"; "3"]
              {| fileCount := 3; messagesPerFile := 200000; queueSize := 10000;
                 uncompressedBufferSize := 2097152; logContainerSize := 131072;
                 compressionThreads := 4; outputDirectory := "blf_multi_writer_logs" |}
              ltac:(unfold Int.is_uint32; simpl; lia)
              ltac:(unfold Int.is_uint32; simpl; lia) eq_refl)
    as (H1 & H2 & H3 & H4 & H5 & H6 & _).
  repeat split; assumption || apply H1 || apply H2 || apply H3 || apply H4
                || apply H5 || apply H6.
Defined.

(** X12: a flag given twice: when the first value is acceptable, the
    command line means the same as with the first occurrence removed (the
    later value replaces the earlier one, and an error in the later value
    is reported all the same). *)
Theorem later_flag_overrides (defaults : LibraryDefaults) (argv0 : string)
    (pre : list string) (o1 oa : CommandLineOptions) (flag a b : string)
    (post : list string) :
  parseArguments argv0 (initialOptions defaults) pre = Returned o1 ->
  parseArguments argv0 o1 [flag; a] = Returned oa ->
  parseCommandLine defaults (argv0 :: pre ++ flag :: a :: flag :: b :: post)
  = parseCommandLine defaults (argv0 :: pre ++ flag :: b :: post).
Proof.
  intros Hpre Ha. unfold parseCommandLine. cbn [hd tl].
  rewrite !(parseArguments_app _ _ _ _ _ Hpre). f_equal.
  apply parseArguments_inv in Ha as (text & rest' & o2 & [= <- <-] & Hacc & _).
  rewrite (parseArguments_step _ _ _ _ _ _ Hacc).
  destruct Hacc as
    [text value o Hp Hv | text value o Hp Hv | text value o Hp Hv
    | text value o Hp | text value o Hp | text value o Hp Hv | text o];
    cbn [parseArguments requireValue]; simpl String.eqb; cbn [orb];
    try (match goal with
         | |- context [bind ?p _] => destruct p as [vb | |]
         end; cbn [bind]; try reflexivity;
         try (destruct (Z.eqb_spec vb 0); [reflexivity |]));
    reflexivity.
Qed.

Lemma later_flag_overrides_witness :
  parseCommandLine Examples.defaults
    ["prog"; "--messages"; "9"; "--files"; "3"; "--files"; "5"; "--queue-size"; "4"]
  = parseCommandLine Examples.defaults
      ["prog"; "--messages"; "9"; "--files"; "5"; "--queue-size"; "4"].
Proof.
  apply (later_flag_overrides Examples.defaults "prog" ["--messages"; "9"]
           (set_messagesPerFile 9 (initialOptions Examples.defaults))
           (set_fileCount 3 (set_messagesPerFile 9 (initialOptions Examples.defaults)))
           "--files" "3" "5" ["--queue-size"; "4"]); reflexivity.
Defined.

(** ** The library calls of a writer task *)

Lemma frameAt_shift index i j : frameAt index (i + 1) j = frameAt index i (S j).
Proof. unfold frameAt. f_equal. lia. Qed.

Lemma frameAt_0 index i : frameAt index i 0 = makeMessage index i.
Proof. unfold frameAt. f_equal. lia. Qed.

Lemma writes_shift index i k :
  Write (frameAt index i 0)
    :: ((fun j => Write (frameAt index (i + 1) j)) <$> seq 0 k)
  = (fun j => Write (frameAt index i j)) <$> seq 0 (S k).
Proof.
  cbn [seq fmap list_fmap]. f_equal. rewrite <- fmap_S_seq, <- list_fmap_compose.
  apply list_fmap_ext. intros _ j _. cbn. f_equal. apply frameAt_shift.
Qed.

Lemma writeMessages_all_written b index count :
  forall i,
  (forall j, (j < count)%nat ->
     onWrite b (i + Z.of_nat j) (frameAt index i j) = None) ->
  writeMessages b index count i
  = ((fun j => Write (frameAt index i j)) <$> seq 0 count, None).
Proof.
  induction count as [| count IH]; intros i Hwrites; [reflexivity |].
  cbn [writeMessages].
  pose proof (Hwrites 0%nat ltac:(lia)) as Hfirst.
  rewrite frameAt_0, Z.add_0_r in Hfirst. rewrite Hfirst.
  rewrite (IH (i + 1)).
  - f_equal. rewrite <- (writes_shift index i count), frameAt_0. reflexivity.
  - intros j Hj. rewrite frameAt_shift.
    replace (i + 1 + Z.of_nat j) with (i + Z.of_nat (S j)) by lia.
    apply Hwrites. lia.
Qed.

Lemma writeMessages_first_failure b index count :
  forall i j what,
  (j < count)%nat ->
  onWrite b (i + Z.of_nat j) (frameAt index i j) = Some what ->
  (forall j', (j' < j)%nat ->
     onWrite b (i + Z.of_nat j') (frameAt index i j') = None) ->
  writeMessages b index count i
  = ((fun j' => Write (frameAt index i j')) <$> seq 0 (S j), Some what).
Proof.
  induction count as [| count IH]; intros i j what Hj Hfail Hbefore; [lia |].
  cbn [writeMessages]. destruct j as [| j].
  - rewrite frameAt_0, Z.add_0_r in Hfail. rewrite Hfail.
    cbn. rewrite frameAt_0. reflexivity.
  - pose proof (Hbefore 0%nat ltac:(lia)) as Hfirst.
    rewrite frameAt_0, Z.add_0_r in Hfirst. rewrite Hfirst.
    rewrite (IH (i + 1) j what).
    + f_equal. rewrite <- (writes_shift index i (S j)), frameAt_0. reflexivity.
    + lia.
    + rewrite frameAt_shift.
      replace (i + 1 + Z.of_nat j) with (i + Z.of_nat (S j)) by lia. exact Hfail.
    + intros j' Hj'. rewrite frameAt_shift.
      replace (i + 1 + Z.of_nat j') with (i + Z.of_nat (S j')) by lia.
      apply Hbefore. lia.
Qed.

Lemma Close_not_written {A} (f : A -> CanMessage.t) (l : list A) :
  Close ∉ (fun j => Write (f j)) <$> l.
Proof.
  intros Hin. apply list_elem_of_fmap in Hin as (j & Heq & _). discriminate.
Qed.

(** X13: when the file cannot be opened, the task writes no frame and
    never calls [close], its result slot stays as it was, and the failure
    slot holds the exception of [open], or, when [open] returns without
    opening, a message that names the path. *)
Theorem open_failure_captured (b : WriterBehaviour) (config : WriterConfig)
    (result : WriterResult) (error : exception_ptr) :
  onOpen b (fileName config) <> OpenSucceeds ->
  let run := runWriter b config result error in
  framesWritten run.1.1 = [] /\
  (Close ∉ run.1.1) /\
  run.1.2 = result /\
  (onOpen b (fileName config) = OpenFails ->
   run.2 = Some ("unable to open output file '" +:+ fileName config +:+ "'")) /\
  (forall what, onOpen b (fileName config) = OpenThrows what -> run.2 = Some what).
Proof.
  intros Hopen. cbn zeta. unfold runWriter, writerBody.
  destruct (onOpen b (fileName config)) as [| | what]; [congruence | |];
    cbn [fst snd]; (split; [reflexivity |]); (split; [| split; [reflexivity |]]).
  - intros Hin. repeat (apply elem_of_cons in Hin as [Hin | Hin]; [discriminate |]).
    inversion Hin.
  - split; [reflexivity | discriminate].
  - intros Hin. repeat (apply elem_of_cons in Hin as [Hin | Hin]; [discriminate |]).
    inversion Hin.
  - split; [discriminate |]. intros what' [= ->]. reflexivity.
Qed.

Lemma open_failure_captured_witness :
  (runWriter Examples.unwritable
     {| index := 1; wMessagesPerFile := 3; wQueueSize := 10;
        wUncompressedBufferSize := 4096; wLogContainerSize := 4096;
        wCompressionThreads := 1; wOutputDirectory := "out" |}
     zeroResult None).2
  = Some "unable to open output file 'out/can_channel_2.blf'".
Proof.
  destruct (open_failure_captured Examples.unwritable
              {| index := 1; wMessagesPerFile := 3; wQueueSize := 10;
                 wUncompressedBufferSize := 4096; wLogContainerSize := 4096;
                 wCompressionThreads := 1; wOutputDirectory := "out" |}
              zeroResult None ltac:(discriminate)) as (_ & _ & _ & Hfails & _).
  apply Hfails. reflexivity.
Defined.

(** X14: the task stops at the first write that throws: with the file
    open and frame [j] the first whose write fails, exactly the frames
    0..j are handed to the library, [close] is never called, the failure
    slot holds that exception and the result slot stays as it was. *)
Theorem stops_at_first_failed_write (b : WriterBehaviour) (config : WriterConfig)
    (result : WriterResult) (error : exception_ptr) (j : nat) (what : string) :
  onOpen b (fileName config) = OpenSucceeds ->
  (j < Z.to_nat (wMessagesPerFile config))%nat ->
  onWrite b (Z.of_nat j) (makeMessage (index config) (Z.of_nat j)) = Some what ->
  (forall i, (i < j)%nat ->
     onWrite b (Z.of_nat i) (makeMessage (index config) (Z.of_nat i)) = None) ->
  let run := runWriter b config result error in
  framesWritten run.1.1
    = (fun i => makeMessage (index config) (Z.of_nat i)) <$> seq 0 (S j) /\
  (Close ∉ run.1.1) /\
  run.2 = Some what /\
  run.1.2 = result.
Proof.
  intros Hopen Hj Hfail Hbefore. cbn zeta. unfold runWriter, writerBody.
  rewrite Hopen.
  rewrite (writeMessages_first_failure b (index config) _ 0 j what Hj Hfail Hbefore).
  cbn [fst snd]. split; [| split; [| split; reflexivity]].
  - rewrite !framesWritten_app, framesWritten_writes. reflexivity.
  - intros Hin. apply elem_of_app in Hin as [Hin | Hin].
    + repeat (apply elem_of_cons in Hin as [Hin | Hin]; [discriminate |]). inversion Hin.
    + apply elem_of_app in Hin as [Hin | Hin].
      * repeat (apply elem_of_cons in Hin as [Hin | Hin]; [discriminate |]). inversion Hin.
      * exact (Close_not_written _ _ Hin).
Qed.

Lemma stops_at_first_failed_write_witness :
  length (framesWritten
    (runWriter Examples.fullDisk
       {| index := 0; wMessagesPerFile := 5; wQueueSize := 10;
          wUncompressedBufferSize := 4096; wLogContainerSize := 4096;
          wCompressionThreads := 1; wOutputDirectory := "out" |}
       zeroResult None).1.1) = 2%nat.
Proof.
  destruct (stops_at_first_failed_write Examples.fullDisk
              {| index := 0; wMessagesPerFile := 5; wQueueSize := 10;
                 wUncompressedBufferSize := 4096; wLogContainerSize := 4096;
                 wCompressionThreads := 1; wOutputDirectory := "out" |}
              zeroResult None 1%nat "write failed" eq_refl ltac:(simpl; lia) eq_refl)
    as (Hframes & _).
  - intros i Hi. destruct i as [| i]; [reflexivity | lia].
  - rewrite Hframes. reflexivity.
Defined.

(** X15: with the file open and no failing write, the task's library
    calls are the three setters with the configured values, [open],
    [is_open], one [write] per frame 0..M-1 in order, and [close].  When
    [close] succeeds the result slot receives M and the measured duration
    and the failure slot is left alone; when [close] throws, the failure
    is captured and the result slot stays as it was, although all M frames
    were handed over. *)
Theorem all_frames_then_close (b : WriterBehaviour) (config : WriterConfig)
    (result : WriterResult) (error : exception_ptr) :
  onOpen b (fileName config) = OpenSucceeds ->
  (forall i, (i < Z.to_nat (wMessagesPerFile config))%nat ->
     onWrite b (Z.of_nat i) (makeMessage (index config) (Z.of_nat i)) = None) ->
  let run := runWriter b config result error in
  run.1.1
    = [SetDefaultLogContainerSize (wLogContainerSize config);
       SetWriteBufferSizes (wQueueSize config) (wUncompressedBufferSize config);
       SetCompressionThreadCount (wCompressionThreads config);
       Open (fileName config); IsOpen]
      ++ ((fun i => Write (makeMessage (index config) (Z.of_nat i)))
            <$> seq 0 (Z.to_nat (wMessagesPerFile config)))
      ++ [Close] /\
  (onClose b = None ->
   run.2 = error /\
   run.1.2 = {| messagesWritten := wMessagesPerFile config;
                secondsTaken := clockEnd b - clockStart b |}) /\
  (forall what, onClose b = Some what -> run.2 = Some what /\ run.1.2 = result).
Proof.
  intros Hopen Hwrites. cbn zeta. unfold runWriter, writerBody. rewrite Hopen.
  rewrite (writeMessages_all_written b (index config) _ 0 Hwrites).
  destruct (onClose b) as [what |]; cbn [fst snd].
  - split; [reflexivity |]. split; [discriminate |].
    intros what' [= ->]. split; reflexivity.
  - split; [reflexivity |]. split; [| discriminate].
    intros _. split; reflexivity.
Qed.

Lemma all_frames_then_close_witness :
  (runWriter Examples.healthy
     {| index := 0; wMessagesPerFile := 2; wQueueSize := 10;
        wUncompressedBufferSize := 4096; wLogContainerSize := 4096;
        wCompressionThreads := 1; wOutputDirectory := "out" |}
     zeroResult None).1.2
  = {| messagesWritten := 2; secondsTaken := 4 |}.
Proof.
  destruct (all_frames_then_close Examples.healthy
              {| index := 0; wMessagesPerFile := 2; wQueueSize := 10;
                 wUncompressedBufferSize := 4096; wLogContainerSize := 4096;
                 wCompressionThreads := 1; wOutputDirectory := "out" |}
              zeroResult None eq_refl (fun _ _ => eq_refl)) as (_ & Hclosed & _).
  apply (Hclosed eq_refl).
Defined.

Lemma writerBody_shape b config :
  let setup :=
    [SetDefaultLogContainerSize (wLogContainerSize config);
     SetWriteBufferSizes (wQueueSize config) (wUncompressedBufferSize config);
     SetCompressionThreadCount (wCompressionThreads config);
     Open (fileName config)] in
  ((writerBody b config).1 = setup \/ (writerBody b config).1 = setup ++ [IsOpen]) /\
   onOpen b (fileName config) <> OpenSucceeds
  \/
  exists k,
    onOpen b (fileName config) = OpenSucceeds /\
    (k <= Z.to_nat (wMessagesPerFile config))%nat /\
    ((writerBody b config).1
       = setup ++ IsOpen :: ((fun j => Write (frameAt (index config) 0 j)) <$> seq 0 k)
     \/
     k = Z.to_nat (wMessagesPerFile config) /\
     (writerBody b config).1
       = setup ++ IsOpen :: ((fun j => Write (frameAt (index config) 0 j)) <$> seq 0 k)
           ++ [Close]).
Proof.
  cbn zeta. unfold writerBody.
  destruct (onOpen b (fileName config)) as [| | what] eqn:Hopen.
  - right.
    destruct (writeMessages_calls b (index config)
                (Z.to_nat (wMessagesPerFile config)) 0) as (k & Hk & Hcalls & Hnone).
    destruct (writeMessages b (index config) _ 0) as [writes thrown].
    cbn [fst snd] in *. subst writes. exists k. split; [reflexivity |]. split; [exact Hk |].
    destruct thrown as [what |].
    + left. reflexivity.
    + right. split; [apply Hnone; reflexivity |].
      destruct (onClose b); reflexivity.
  - left. split; [right; reflexivity | discriminate].
  - left. split; [left; reflexivity | discriminate].
Qed.

(** X16: the order of a task's library calls, whatever the library
    answers: the first four calls are the three setters with the
    configured values and [open] of the task's path; a frame is written
    only after [open] succeeded and [is_open] was asked; [close], when it
    is called, is the last call and comes after all [messagesPerFile]
    frames. *)
Theorem library_call_protocol (b : WriterBehaviour) (config : WriterConfig)
    (result : WriterResult) (error : exception_ptr) :
  let made := (runWriter b config result error).1.1 in
  take 4 made
    = [SetDefaultLogContainerSize (wLogContainerSize config);
       SetWriteBufferSizes (wQueueSize config) (wUncompressedBufferSize config);
       SetCompressionThreadCount (wCompressionThreads config);
       Open (fileName config)] /\
  (forall i m, made !! i = Some (Write m) ->
     onOpen b (fileName config) = OpenSucceeds /\
     made !! 4%nat = Some IsOpen /\ (5 <= i)%nat) /\
  (forall i, made !! i = Some Close ->
     S i = length made /\
     length (framesWritten made) = Z.to_nat (wMessagesPerFile config)).
Proof.
  cbn zeta. rewrite runWriter_calls.
  destruct (writerBody_shape b config)
    as [[[-> | ->] Hopen] | (k & Hopen & Hk & [-> | [-> ->]])].
  - split; [reflexivity |]. split.
    + intros [| [| [| [| i]]]] m H; discriminate.
    + intros [| [| [| [| i]]]] H; discriminate.
  - split; [reflexivity |]. split.
    + intros [| [| [| [| [| i]]]]] m H; discriminate.
    + intros [| [| [| [| [| i]]]]] H; discriminate.
  - split; [reflexivity |]. split.
    + intros i m H. split; [exact Hopen |]. split; [reflexivity |].
      destruct i as [| [| [| [| [| i]]]]]; try discriminate. lia.
    + intros i H. exfalso.
      destruct i as [| [| [| [| [| i]]]]]; try discriminate.
      cbn in H. apply list_elem_of_lookup_2 in H.
      exact (Close_not_written _ _ H).
  - split; [reflexivity |]. split.
    + intros i m H. split; [exact Hopen |]. split; [reflexivity |].
      destruct i as [| [| [| [| [| i]]]]]; try discriminate. lia.
    + intros i H.
      destruct i as [| [| [| [| [| i]]]]]; try discriminate.
      cbn in H. apply lookup_app_Some in H as [H | [Hlen H]].
      * exfalso. apply list_elem_of_lookup_2 in H. exact (Close_not_written _ _ H).
      * rewrite length_fmap, length_seq in Hlen, H.
        assert (i = Z.to_nat (wMessagesPerFile config)) as ->.
        { apply lookup_lt_Some in H. cbn in H. lia. }
        split.
        -- cbn. rewrite length_app, length_fmap, length_seq. cbn. lia.
        -- change (framesWritten ?l) with (framesWritten l).
           rewrite (framesWritten_app
                      [SetDefaultLogContainerSize (wLogContainerSize config);
                       SetWriteBufferSizes (wQueueSize config)
                         (wUncompressedBufferSize config);
                       SetCompressionThreadCount (wCompressionThreads config);
                       Open (fileName config)]).
           change (IsOpen :: ?l) with ([IsOpen] ++ l).
           rewrite !framesWritten_app, framesWritten_writes. cbn.
           rewrite app_nil_r, length_fmap, length_seq. reflexivity.
Qed.

Lemma library_call_protocol_witness :
  S 7 = length (runWriter Examples.healthy
                  {| index := 0; wMessagesPerFile := 2; wQueueSize := 10;
                     wUncompressedBufferSize := 4096; wLogContainerSize := 4096;
                     wCompressionThreads := 1; wOutputDirectory := "out" |}
                  zeroResult None).1.1.
Proof.
  destruct (library_call_protocol Examples.healthy
              {| index := 0; wMessagesPerFile := 2; wQueueSize := 10;
                 wUncompressedBufferSize := 4096; wLogContainerSize := 4096;
                 wCompressionThreads := 1; wOutputDirectory := "out" |}
              zeroResult None) as (_ & _ & Hclose).
  apply (Hclose 7%nat). reflexivity.
Defined.

(** X17: every frame a task writes is well formed: its channel is
    [index mod 65535 + 1], between 1 and 65535 and the same for all frames
    of the task; its length code is 8, its flags are 0 and its payload has
    8 bytes, each between 0 and 255. *)
Theorem written_frames_well_formed (b : WriterBehaviour) (config : WriterConfig)
    (result : WriterResult) (error : exception_ptr) (i : nat) (m : CanMessage.t) :
  framesWritten (runWriter b config result error).1.1 !! i = Some m ->
  CanMessage.channel m = index config mod 65535 + 1 /\
  1 <= CanMessage.channel m <= 65535 /\
  CanMessage.dlc m = 8 /\
  CanMessage.flags m = 0 /\
  length (CanMessage.data m) = 8%nat /\
  Forall (fun byte => 0 <= byte <= 255) (CanMessage.data m).
Proof.
  intros H. apply written_frame in H as [-> _].
  pose proof (Z.mod_pos_bound (index config) 65535 ltac:(lia)) as Hmod.
  assert (Hchannel : CanMessage.channel (makeMessage (index config) (Z.of_nat i))
                     = index config mod 65535 + 1).
  { cbn [makeMessage CanMessage.channel]. apply to_unsigned_id. lia. }
  rewrite Hchannel. split; [reflexivity |]. split; [lia |].
  split; [reflexivity |]. split; [reflexivity |].
  rewrite makeMessage_data. split; [reflexivity |].
  apply Forall_fmap, Forall_forall. intros k _. cbn.
  pose proof (Z.mod_pos_bound (Z.of_nat i + Z.of_nat k) 256 ltac:(lia)). lia.
Qed.

Lemma written_frames_well_formed_witness :
  CanMessage.channel (makeMessage 65535 1) = 65535 mod 65535 + 1.
Proof.
  apply (written_frames_well_formed Examples.healthy
           {| index := 65535; wMessagesPerFile := 2; wQueueSize := 10;
              wUncompressedBufferSize := 4096; wLogContainerSize := 4096;
              wCompressionThreads := 1; wOutputDirectory := "out" |}
           zeroResult None 1%nat (makeMessage 65535 1)).
  reflexivity.
Defined.

(** ** Runs of the orchestrator *)



(** After the threads have run, in any order of completion, the slots
    hold the outcomes of the tasks in index order. *)
Lemma runThreads_final w options schedule :
  let n := Z.to_nat (fileCount options) in
  schedule ≡ₚ seq 0 n ->
  runThreads w options schedule (initialSlots n)
  = {| results := (fun k => (taskOutcome w options k).1.2) <$> seq 0 n;
       errors := (fun k => (taskOutcome w options k).2) <$> seq 0 n;
       calls := (fun k => (taskOutcome w options k).1.1) <$> seq 0 n |}.
Proof.
  intros n Hperm.
  pose proof (runThreads_wf w options n schedule _ (initialSlots_wf n)) as [Hr He Hc].
  pose proof (runThreads_initial w options n schedule) as Hslot.
  destruct (runThreads w options schedule (initialSlots n)) as [rs es cs].
  cbn [results errors calls] in *.
  f_equal; apply list_eq; intros k; rewrite list_lookup_fmap;
    (destruct (decide (k < n)%nat) as [Hk | Hk];
     [ destruct (Hslot k Hperm Hk) as (Hres & Herr & Hcalls);
       rewrite (lookup_seq_lt 0 n k Hk); cbn; assumption
     | rewrite (lookup_seq_ge 0 n k) by lia; cbn;
       apply lookup_ge_None; lia ]).
Qed.

(** X18: the outcome of a run does not depend on the order in which the
    threads complete: two runs on the same command line in the same
    environment have the same events, exit status and slots. *)
Theorem main_schedule_independent (w : World) (schedule1 schedule2 : list nat)
    (argv : list string) (options : CommandLineOptions) :
  parseCommandLine (libraryDefaults w) argv = Returned options ->
  schedule1 ≡ₚ seq 0 (Z.to_nat (fileCount options)) ->
  schedule2 ≡ₚ seq 0 (Z.to_nat (fileCount options)) ->
  main w schedule1 argv = main w schedule2 argv.
Proof.
  intros Hparse H1 H2. unfold main. rewrite Hparse.
  destruct (negb _); [reflexivity |]. cbn zeta.
  rewrite (runThreads_final w options schedule1 H1).
  rewrite (runThreads_final w options schedule2 H2). reflexivity.
Qed.

Lemma main_schedule_independent_witness :
  main Examples.faulty [1; 0; 2]%nat ["prog"; "--files"; "3"; "--messages"; "2"]
  = main Examples.faulty [0; 2; 1]%nat ["prog"; "--files"; "3"; "--messages"; "2"].
Proof.
  apply (main_schedule_independent Examples.faulty [1; 0; 2]%nat [0; 2; 1]%nat
           ["prog"; "--files"; "3"; "--messages"; "2"]
           {| fileCount := 3; messagesPerFile := 2; queueSize := 10000;
              uncompressedBufferSize := 2097152; logContainerSize := 131072;
              compressionThreads := 4; outputDirectory := "blf_multi_writer_logs" |}).
  - reflexivity.
  - apply perm_swap.
  - apply perm_skip, perm_swap.
Defined.

(** X19: the slots of a task depend on its own writer only: in two
    environments with the same library defaults in which the writer of
    task [k] behaves the same, task [k] ends with the same result, the
    same failure and the same library calls, whatever the other writers
    do and in whatever order the threads complete. *)
Theorem task_slots_isolated (w1 w2 : World) (schedule1 schedule2 : list nat)
    (argv : list string) (options : CommandLineOptions) (k : nat) :
  libraryDefaults w1 = libraryDefaults w2 ->
  writer w1 (Z.of_nat k) = writer w2 (Z.of_nat k) ->
  parseCommandLine (libraryDefaults w1) argv = Returned options ->
  ensureDirectoryExists w1 (outputDirectory options) = true ->
  ensureDirectoryExists w2 (outputDirectory options) = true ->
  schedule1 ≡ₚ seq 0 (Z.to_nat (fileCount options)) ->
  schedule2 ≡ₚ seq 0 (Z.to_nat (fileCount options)) ->
  (k < Z.to_nat (fileCount options))%nat ->
  results (finalSlots (main w1 schedule1 argv)) !! k
    = results (finalSlots (main w2 schedule2 argv)) !! k /\
  errors (finalSlots (main w1 schedule1 argv)) !! k
    = errors (finalSlots (main w2 schedule2 argv)) !! k /\
  calls (finalSlots (main w1 schedule1 argv)) !! k
    = calls (finalSlots (main w2 schedule2 argv)) !! k.
Proof.
  intros Hdefaults Hwriter Hparse Hdir1 Hdir2 Hperm1 Hperm2 Hk.
  assert (Hparse2 : parseCommandLine (libraryDefaults w2) argv = Returned options)
    by (rewrite <- Hdefaults; exact Hparse).
  destruct (main_slots w1 schedule1 argv options k Hparse Hdir1 Hperm1 Hk)
    as (-> & -> & ->).
  destruct (main_slots w2 schedule2 argv options k Hparse2 Hdir2 Hperm2 Hk)
    as (-> & -> & ->).
  unfold taskOutcome. rewrite Hwriter. auto.
Qed.

Lemma task_slots_isolated_witness :
  results (finalSlots (main Examples.good [0; 1; 2]%nat
                         ["prog"; "--files"; "3"; "--messages"; "2"])) !! 0%nat
  = results (finalSlots (main Examples.faulty [1; 0; 2]%nat
                           ["prog"; "--files"; "3"; "--messages"; "2"])) !! 0%nat.
Proof.
  apply (task_slots_isolated Examples.good Examples.faulty [0; 1; 2]%nat [1; 0; 2]%nat
           ["prog"; "--files"; "3"; "--messages"; "2"]
           {| fileCount := 3; messagesPerFile := 2; queueSize := 10000;
              uncompressedBufferSize := 2097152; logContainerSize := 131072;
              compressionThreads := 4; outputDirectory := "blf_multi_writer_logs" |}
           0%nat); try reflexivity.
  - apply perm_swap.
  - simpl. lia.
Defined.








(** X23: directory creation.  When the directory can neither be created
    nor is found to exist, the run prints one line naming the directory
    and fails without launching a task; a directory that already exists
    is accepted exactly like one that was just created. *)
Theorem directory_creation (w : World) (schedule : list nat)
    (argv : list string) (options : CommandLineOptions) :
  parseCommandLine (libraryDefaults w) argv = Returned options ->
  (mkdir w (outputDirectory options) = MkdirFailed ->
   main w schedule argv
   = {| events := [Mkdir (outputDirectory options);
                   Stderr ("Failed to create output directory '"
                             +:+ outputDirectory options +:+ "'")];
        exitStatus := EXIT_FAILURE;
        finalSlots := initialSlots 0 |}) /\
  (forall answer,
     mkdir w (outputDirectory options) <> MkdirFailed ->
     answer (outputDirectory options) <> MkdirFailed ->
     main {| libraryDefaults := libraryDefaults w; mkdir := answer;
             writer := writer w; overallStart := overallStart w;
             overallEnd := overallEnd w |} schedule argv
     = main w schedule argv).
Proof.
  intros Hparse. split.
  - intros Hfailed. unfold main, ensureDirectoryExists.
    rewrite Hparse, Hfailed. reflexivity.
  - intros answer Hw Hanswer. unfold main, ensureDirectoryExists.
    cbn [libraryDefaults mkdir]. rewrite Hparse.
    destruct (mkdir w (outputDirectory options)); try congruence;
      destruct (answer (outputDirectory options)); try congruence; reflexivity.
Qed.

Lemma directory_creation_witness :
  main Examples.faulty [1; 0; 2]%nat ["prog"; "--files"; "3"; "--messages"; "2"]
  = main {| libraryDefaults := Examples.defaults; mkdir := fun _ => MkdirCreated;
            writer := writer Examples.faulty; overallStart := 0; overallEnd := 100 |}
      [1; 0; 2]%nat ["prog"; "--files"; "3"; "--messages"; "2"].
Proof.
  destruct (directory_creation Examples.faulty [1; 0; 2]%nat
              ["prog"; "--files"; "3"; "--messages"; "2"]
              {| fileCount := 3; messagesPerFile := 2; queueSize := 10000;
                 uncompressedBufferSize := 2097152; logContainerSize := 131072;
                 compressionThreads := 4; outputDirectory := "blf_multi_writer_logs" |}
              eq_refl) as (_ & Hsame).
  symmetry. apply (Hsame (fun _ => MkdirCreated)); discriminate.
Defined.

(** ** The single-file benchmark *)

Lemma stamped_shift count k :
  (fun i => Write (FileWriteBenchmark.stamped (count + 1 + Z.of_nat i))) <$> seq 0 k
  = (fun i => Write (FileWriteBenchmark.stamped (count + Z.of_nat i))) <$> seq 1 k.
Proof.
  rewrite <- fmap_S_seq, <- list_fmap_compose.
  apply list_fmap_ext. intros _ i _. cbn. do 2 f_equal. lia.
Qed.

Lemma writeLoop_until_deadline e deadline n :
  forall fuel reading count,
  (forall k, (reading <= k < reading + n)%nat -> FileWriteBenchmark.now e k < deadline) ->
  deadline <= FileWriteBenchmark.now e (reading + n) ->
  (forall i, count <= i < count + Z.of_nat n -> FileWriteBenchmark.writes e i = None) ->
  0 <= count -> count + Z.of_nat n < 2 ^ 64 -> (n < fuel)%nat ->
  FileWriteBenchmark.writeLoop e deadline fuel reading count
  = Some ((fun i => Write (FileWriteBenchmark.stamped (count + Z.of_nat i))) <$> seq 0 n,
          None, count + Z.of_nat n, S (reading + n)).
Proof.
  induction n as [| n IH]; intros fuel reading count Hbefore Hafter Hwrites Hcount Hfits Hfuel;
    (destruct fuel as [| fuel]; [lia |]); cbn [FileWriteBenchmark.writeLoop].
  - rewrite Nat.add_0_r in Hafter.
    destruct (Z.ltb_spec (FileWriteBenchmark.now e reading) deadline); [lia |].
    rewrite Nat.add_0_r, Z.add_0_r. reflexivity.
  - pose proof (Hbefore reading ltac:(lia)).
    destruct (Z.ltb_spec (FileWriteBenchmark.now e reading) deadline); [| lia].
    rewrite (Hwrites count) by lia.
    unfold Int.to_size_t. rewrite to_unsigned_id by lia.
    rewrite (IH fuel (S reading) (count + 1)).
    + cbn [seq fmap list_fmap]. rewrite stamped_shift, Z.add_0_r.
      replace (count + 1 + Z.of_nat n) with (count + Z.of_nat (S n)) by lia.
      replace (S reading + n)%nat with (reading + S n)%nat by lia. reflexivity.
    + intros k Hk. apply Hbefore. lia.
    + replace (S reading + n)%nat with (reading + S n)%nat by lia. exact Hafter.
    + intros i Hi. apply Hwrites. lia.
    + lia.
    + lia.
    + lia.
Qed.

Lemma writeLoop_write_throws e deadline j :
  forall fuel reading count what,
  (forall k, (reading <= k <= reading + j)%nat -> FileWriteBenchmark.now e k < deadline) ->
  FileWriteBenchmark.writes e (count + Z.of_nat j) = Some what ->
  (forall i, count <= i < count + Z.of_nat j -> FileWriteBenchmark.writes e i = None) ->
  0 <= count -> count + Z.of_nat j < 2 ^ 64 -> (j < fuel)%nat ->
  FileWriteBenchmark.writeLoop e deadline fuel reading count
  = Some ((fun i => Write (FileWriteBenchmark.stamped (count + Z.of_nat i)))
            <$> seq 0 (S j),
          Some what, count + Z.of_nat j, S (reading + j)).
Proof.
  induction j as [| j IH]; intros fuel reading count what Hbefore Hfail Hwrites Hcount Hfits Hfuel;
    (destruct fuel as [| fuel]; [lia |]); cbn [FileWriteBenchmark.writeLoop];
    pose proof (Hbefore reading ltac:(lia));
    (destruct (Z.ltb_spec (FileWriteBenchmark.now e reading) deadline); [| lia]).
  - rewrite Z.add_0_r in Hfail. rewrite Hfail.
    cbn [seq fmap list_fmap Z.of_nat]. rewrite Nat.add_0_r, !Z.add_0_r. reflexivity.
  - rewrite (Hwrites count) by lia.
    unfold Int.to_size_t. rewrite to_unsigned_id by lia.
    rewrite (IH fuel (S reading) (count + 1) what).
    + rewrite (stamped_shift count (S j)).
      cbn [seq fmap list_fmap Z.of_nat]. rewrite Z.add_0_r.
      replace (count + 1 + Z.of_nat j) with (count + Z.of_nat (S j)) by lia.
      replace (S reading + j)%nat with (reading + S j)%nat by lia. reflexivity.
    + intros k Hk. apply Hbefore. lia.
    + replace (count + 1 + Z.of_nat j) with (count + Z.of_nat (S j)) by lia. exact Hfail.
    + intros i Hi. apply Hwrites. lia.
    + lia.
    + lia.
    + lia.
Qed.

(** X24: the single-file benchmark with a library that does not throw.
    When clock readings 1..n lie before the deadline (one second after the
    first reading) and reading n+1 does not, the program returns, given
    more than [n] steps of fuel: it opens the output path, writes exactly
    [n] copies of the prototype, frame [i] with timestamp [i], and closes.
    When the measured file size is 0 it prints "Failed to measure file
    size.", returns 1 and does not remove the file; otherwise it reports
    [n] frames and the size, removes the file and returns 0. *)
Theorem benchmark_runs_until_deadline (e : FileWriteBenchmark.Environment)
    (n fuel : nat) :
  FileWriteBenchmark.deadlineAfter e n ->
  FileWriteBenchmark.opens e = None ->
  (forall i, 0 <= i < Z.of_nat n -> FileWriteBenchmark.writes e i = None) ->
  FileWriteBenchmark.closes e = None ->
  Z.of_nat n < 2 ^ 64 ->
  (n < fuel)%nat ->
  let made :=
    FileWriteBenchmark.Call
      <$> (Open FileWriteBenchmark.outputPath
             :: ((fun i => Write (FileWriteBenchmark.stamped (Z.of_nat i))) <$> seq 0 n)
             ++ [Close]) in
  FileWriteBenchmark.main e fuel
  = Some
      (if FileWriteBenchmark.fileSize e =? 0 then
         {| FileWriteBenchmark.events :=
              made ++ [FileWriteBenchmark.Measure FileWriteBenchmark.outputPath;
                       FileWriteBenchmark.ErrorLine "Failed to measure file size."];
            FileWriteBenchmark.ending := Done 1 |}
       else
         {| FileWriteBenchmark.events :=
              made ++ [FileWriteBenchmark.Measure FileWriteBenchmark.outputPath;
                       FileWriteBenchmark.Statistics (Z.of_nat n)
                         (FileWriteBenchmark.fileSize e)
                         (FileWriteBenchmark.objectSize e)
                         (FileWriteBenchmark.now e (n + 3)
                          - FileWriteBenchmark.now e 0);
                       FileWriteBenchmark.Remove FileWriteBenchmark.outputPath];
            FileWriteBenchmark.ending := Done 0 |}).
Proof.
  intros [Hbefore Hafter] Hopen Hwrites Hclose Hfits Hfuel made.
  unfold FileWriteBenchmark.main. rewrite Hopen. cbn zeta.
  rewrite (writeLoop_until_deadline e _ n fuel 1 0).
  - rewrite Hclose. cbn [Z.add]. subst made.
    replace (S (S (1 + n))) with (n + 3)%nat by lia.
    destruct (FileWriteBenchmark.fileSize e =? 0); reflexivity.
  - intros k Hk. apply Hbefore. lia.
  - exact Hafter.
  - intros i Hi. apply Hwrites. lia.
  - lia.
  - lia.
  - exact Hfuel.
Qed.

Lemma benchmark_runs_until_deadline_witness :
  exists run,
    FileWriteBenchmark.main FileWriteBenchmark.example 10 = Some run /\
    FileWriteBenchmark.ending run = Done 0.
Proof.
  eexists. split.
  - apply (benchmark_runs_until_deadline FileWriteBenchmark.example 3 10).
    + split; [| vm_compute; discriminate].
      intros k Hk. assert (k = 1 \/ k = 2 \/ k = 3)%nat as [-> | [-> | ->]] by lia;
        reflexivity.
    + reflexivity.
    + intros i _. reflexivity.
    + reflexivity.
    + reflexivity.
    + lia.
  - reflexivity.
Defined.

(** X25: the single-file benchmark has no handler: when the write of
    frame [j] is the first to throw, while the clock is still before the
    deadline, the exception ends the program after the frames 0..j were
    handed to the library; the file is neither closed nor measured nor
    removed and nothing is printed. *)
Theorem benchmark_write_exception (e : FileWriteBenchmark.Environment)
    (j fuel : nat) (what : string) :
  FileWriteBenchmark.opens e = None ->
  (forall k, (1 <= k <= S j)%nat ->
     FileWriteBenchmark.now e k
     < FileWriteBenchmark.now e 0 + FileWriteBenchmark.second e) ->
  FileWriteBenchmark.writes e (Z.of_nat j) = Some what ->
  (forall i, 0 <= i < Z.of_nat j -> FileWriteBenchmark.writes e i = None) ->
  Z.of_nat j < 2 ^ 64 ->
  (j < fuel)%nat ->
  FileWriteBenchmark.main e fuel
  = Some {| FileWriteBenchmark.events :=
              FileWriteBenchmark.Call
                <$> (Open FileWriteBenchmark.outputPath
                       :: ((fun i => Write (FileWriteBenchmark.stamped (Z.of_nat i)))
                             <$> seq 0 (S j)));
            FileWriteBenchmark.ending := Raised what |}.
Proof.
  intros Hopen Hbefore Hfail Hwrites Hfits Hfuel.
  unfold FileWriteBenchmark.main. rewrite Hopen. cbn zeta.
  rewrite (writeLoop_write_throws e _ j fuel 1 0 what); [reflexivity | ..].
  - intros k Hk. apply Hbefore. lia.
  - exact Hfail.
  - intros i Hi. apply Hwrites. lia.
  - lia.
  - lia.
  - exact Hfuel.
Qed.

Lemma benchmark_write_exception_witness :
  FileWriteBenchmark.ending
    <$> FileWriteBenchmark.main
          {| FileWriteBenchmark.now := fun k => Z.of_nat k;
             FileWriteBenchmark.second := 1000;
             FileWriteBenchmark.opens := None;
             FileWriteBenchmark.writes :=
               fun i => if i =? 2 then Some "disk full" else None;
             FileWriteBenchmark.closes := None;
             FileWriteBenchmark.objectSize := 48;
             FileWriteBenchmark.tellg := None |} 5
  = Some (Raised "disk full").
Proof.
  rewrite (benchmark_write_exception _ 2 5 "disk full"); try reflexivity.
  - intros k Hk. cbn. lia.
  - intros i Hi. cbn. destruct (Z.eqb_spec i 2); [lia | reflexivity].
  - lia.
Defined.
